(** * hvc.audio: spectrogram, segmentation and syllable extraction

    A shallow embedding of [src/hvc/audio.py].  Real-valued samples, times,
    frequencies and powers are rationals ([Q]); Python integers are [Z];
    array positions are [nat].  Python exceptions are the [Err] side of
    [result], threaded by a small error monad.  The numpy primitives the
    module relies on ([np.nonzero], integer-array indexing, broadcasting
    subtraction, [np.convolve], [np.argmin], [np.log10], [np.flipud]) are
    written out with the behaviour they have on the shapes used here.

    Differences of times ([offsets - onsets], [time_bins - onset]) are exact
    here, where numpy rounds them to double precision.  The properties
    below are those that rounding preserves: which elements are selected
    together, the order of bins, strict inequalities between returned
    values.  What would depend on the rounding of a difference (which
    segment sits exactly on a threshold, which of two bins is nearer) is
    not stated. *)

From Stdlib Require Import String Ascii.
From Stdlib Require Import List ZArith QArith Qround Qabs Bool Lia Lqa Sorted.
Import ListNotations.

Local Open Scope Q_scope.

(** ** Exceptions and the error monad *)

Inductive exn : Type :=
| IndexError
| ZeroDivisionError
| ValueError (msg : string)
| ExternalError (msg : string).

Inductive result (A : Type) : Type :=
| Ok (a : A)
| Err (e : exn).

Arguments Ok {A} a.
Arguments Err {A} e.

Definition bind {A B : Type} (m : result A) (k : A -> result B) : result B :=
  match m with
  | Ok a => k a
  | Err e => Err e
  end.

Notation "x <- m ;; k" := (bind m (fun x => k))
  (at level 61, m at next level, right associativity).
Notation "' pat <- m ;; k" := (bind m (fun x => match x with pat => k end))
  (at level 61, pat pattern, m at next level, right associativity).

(** ** Comparisons on rationals, as booleans *)

Definition Qgtb (x y : Q) : bool := negb (Qle_bool x y).
Definition Qltb (x y : Q) : bool := negb (Qle_bool y x).
Definition Qgeb (x y : Q) : bool := Qle_bool y x.

(** ** numpy primitives *)

Module np.

(** [np.nonzero(mask)[0]]: the positions of the true entries, ascending. *)
Fixpoint nonzero_from (k : nat) (mask : list bool) : list nat :=
  match mask with
  | [] => []
  | b :: m => if b then k :: nonzero_from (S k) m else nonzero_from (S k) m
  end.

Definition nonzero (mask : list bool) : list nat := nonzero_from 0 mask.

(** [a[idx]] for an array of non-negative positions [idx]: numpy raises
    IndexError as soon as one position is out of bounds. *)
Fixpoint take {A : Type} (a : list A) (idx : list nat) : result (list A) :=
  match idx with
  | [] => Ok []
  | i :: idx' =>
      match nth_error a i with
      | None => Err IndexError
      | Some x => xs <- take a idx' ;; Ok (x :: xs)
      end
  end.

(** [a - b] on 1-d arrays: elementwise on equal lengths, a length-1
    operand is broadcast, any other pair of lengths is a ValueError. *)
Fixpoint sub_same (a b : list Q) : list Q :=
  match a, b with
  | x :: a', y :: b' => (x - y) :: sub_same a' b'
  | _, _ => []
  end.

Definition subtract (a b : list Q) : result (list Q) :=
  if Nat.eqb (length a) (length b) then Ok (sub_same a b)
  else match a, b with
       | [x], _ => Ok (map (fun y => x - y) b)
       | _, [y] => Ok (map (fun x => x - y) a)
       | _, _ => Err (ValueError "operands could not be broadcast together")
       end.

(** Sum of two integer sequences, the shorter one padded with zeros. *)
Fixpoint add_pad (a b : list Z) : list Z :=
  match a, b with
  | [], _ => b
  | _, [] => a
  | x :: a', y :: b' => (x + y)%Z :: add_pad a' b'
  end.

(** Full discrete convolution, of length [len a + len v - 1]. *)
Fixpoint convolve_full (a v : list Z) : list Z :=
  match a with
  | [] => []
  | x :: a' => add_pad (map (Z.mul x) v) (0%Z :: convolve_full a' v)
  end.

(** [np.convolve(a, v)] in its default 'full' mode; an empty operand is a
    ValueError. *)
Definition convolve (a v : list Z) : result (list Z) :=
  match a, v with
  | [], _ => Err (ValueError "a cannot be empty")
  | _, [] => Err (ValueError "v cannot be empty")
  | _, _ => Ok (convolve_full a v)
  end.

(** [a[1:]] and [a[:-1]]. *)
Definition from1 {A : Type} (a : list A) : list A := tl a.
Definition upto_last {A : Type} (a : list A) : list A := removelast a.

(** [np.argmin(a)]: the first position of the least entry; an empty array
    is a ValueError. *)
Fixpoint argmin_from (best_i : nat) (best : Q) (k : nat) (a : list Q) : nat :=
  match a with
  | [] => best_i
  | x :: a' =>
      if Qltb x best then argmin_from k x (S k) a'
      else argmin_from best_i best (S k) a'
  end.

Definition argmin (a : list Q) : result nat :=
  match a with
  | [] => Err (ValueError "attempt to get argmin of an empty sequence")
  | x :: a' => Ok (argmin_from 0 x 1 a')
  end.

(** The value of [np.log10] at a real power [x]: the real number
    [log10 x] for positive [x] (kept symbolic), [-inf] at zero and [nan]
    below zero.  numpy reports the last two through a RuntimeWarning and
    returns the array; no exception is raised. *)
Inductive log_value : Type :=
| Log10 (x : Q)
| NegInf
| NaN.

Definition log10 (x : Q) : log_value :=
  if Qltb 0 x then Log10 x
  else if Qeq_bool x 0 then NegInf
  else NaN.

(** A 2-d array: its rows, and its second dimension kept explicitly, as
    an array with no rows still has a column count. *)
Record array2 (A : Type) : Type := mk_array2 {
  rows : list (list A);
  ncols : nat
}.
Arguments mk_array2 {A} rows ncols.
Arguments rows {A} a.
Arguments ncols {A} a.

Definition nrows {A : Type} (a : array2 A) : nat := length (rows a).

(** [a[idx, :]] *)
Definition take_rows {A : Type} (a : array2 A) (idx : list nat)
    : result (array2 A) :=
  rs <- take (rows a) idx ;; Ok (mk_array2 rs (ncols a)).

Definition map2 {A B : Type} (f : A -> B) (a : array2 A) : array2 B :=
  mk_array2 (map (map f) (rows a)) (ncols a).

Definition flipud {A : Type} (a : array2 A) : array2 A :=
  mk_array2 (rev (rows a)) (ncols a).

(** Python's normalisation of a slice bound against a length [n]:
    a negative bound counts from the end, and both are clipped. *)
Definition slice_bound (i n : Z) : Z :=
  if (i <? 0)%Z then Z.max (i + n) 0 else Z.min i n.

Definition slice {A : Type} (l : list A) (start stop : Z) : list A :=
  let n := Z.of_nat (length l) in
  let lo := slice_bound start n in
  let hi := slice_bound stop n in
  firstn (Z.to_nat (hi - lo)) (skipn (Z.to_nat lo) l).

Definition slice_len (n : nat) (start stop : Z) : nat :=
  let lo := slice_bound start (Z.of_nat n) in
  let hi := slice_bound stop (Z.of_nat n) in
  Z.to_nat (hi - lo).

(** [a[:, start:stop]] *)
Definition slice_cols {A : Type} (a : array2 A) (start stop : Z) : array2 A :=
  mk_array2 (map (fun r => slice r start stop) (rows a))
            (slice_len (ncols a) start stop).

End np.

(** Python's [round] on a real: to the nearest integer, ties to the even
    one. *)
Definition py_round (x : Q) : Z :=
  let f := Qfloor x in
  match Qcompare (x - inject_Z f) (1 # 2) with
  | Lt => f
  | Gt => (f + 1)%Z
  | Eq => if Z.even f then f else (f + 1)%Z
  end.

(** [a[i]] on a Python list with a non-negative position. *)
Definition py_index {A : Type} (a : list A) (i : nat) : result A :=
  match nth_error a i with
  | Some x => Ok x
  | None => Err IndexError
  end.

Fixpoint mapM {A B : Type} (f : A -> result B) (l : list A) : result (list B) :=
  match l with
  | [] => Ok []
  | x :: l' => y <- f x ;; ys <- mapM f l' ;; Ok (y :: ys)
  end.

Definition Z_of_bool (b : bool) : Z := if b then 1%Z else 0%Z.

(** ** segment_song *)

(** Lines 96-102: threshold crossings, read off the convolution of the
    above-threshold sequence with [[1; -1]]. *)
Definition threshold_crossings (amp time_bins : list Q) (threshold : Q)
    : result (list Q * list Q) :=
  let above_th := map (fun a => Qgtb a threshold) amp in
  let h := [1%Z; (-1)%Z] in
  above_th_convoluted <- np.convolve h (map Z_of_bool above_th) ;;
  onsets <- np.take time_bins
              (np.nonzero (map (fun c => (c >? 0)%Z) above_th_convoluted)) ;;
  offsets <- np.take time_bins
               (np.nonzero (map (fun c => (c <? 0)%Z) above_th_convoluted)) ;;
  Ok (onsets, offsets).

(** Lines 104-108: the step commented "get rid of silent intervals that
    are shorter than min_silent_dur". *)
Definition drop_short_gaps (onsets offsets : list Q) (min_silent_dur : Q)
    : result (list Q * list Q) :=
  silent_gap_durs <- np.subtract (np.from1 onsets) (np.upto_last offsets) ;;
  let keep_these :=
    np.nonzero (map (fun d => Qgtb d min_silent_dur) silent_gap_durs) in
  onsets <- np.take onsets keep_these ;;
  offsets <- np.take offsets keep_these ;;
  Ok (onsets, offsets).

(** Lines 110-114: the step commented "eliminate syllables with duration
    shorter than min_syl_dur". *)
Definition drop_short_syllables (onsets offsets : list Q) (min_syl_dur : Q)
    : result (list Q * list Q) :=
  syl_durs <- np.subtract offsets onsets ;;
  let keep_these := np.nonzero (map (fun d => Qgtb d min_syl_dur) syl_durs) in
  onsets <- np.take onsets keep_these ;;
  offsets <- np.take offsets keep_these ;;
  Ok (onsets, offsets).

Definition segment_song (amp time_bins : list Q)
    (threshold min_syl_dur min_silent_dur : Q) : result (list Q * list Q) :=
  '(onsets, offsets) <- threshold_crossings amp time_bins threshold ;;
  '(onsets, offsets) <- drop_short_gaps onsets offsets min_silent_dur ;;
  drop_short_syllables onsets offsets min_syl_dur.

(** ** make_spect *)

Record song_spect : Type := mk_song_spect {
  spect : np.array2 np.log_value;
  freqBins : list Q;
  timeBins : list Q;
  sampFreq : Q
}.

(** The collaborators outside [hvc.audio]: scipy's window and short-time
    Fourier routines, and the readers of [hvc.evfuncs]. *)
Record notmat : Type := mk_notmat {
  nm_labels : string;
  nm_onsets : list Q;
  nm_offsets : list Q
}.

Record environment : Type := mk_environment {
  slepian : Z -> Q -> result (list Q);
  spectrogram : list Q -> Q -> list Q -> nat -> Z
                -> result (list Q * list Q * np.array2 Q);
  load_cbin : string -> result (list Q * Q);
  load_notmat : string -> result notmat
}.

Definition in_band (lo hi f : Q) : bool := Qgeb f lo && Qltb f hi.

(** Lines 47-53: the window and the short-time power spectral density.
    [4/size] divides by zero when [size] is zero. *)
Definition stft (env : environment) (waveform : list Q) (sampfreq : Q)
    (size step : Z) : result (list Q * list Q * np.array2 Q) :=
  shape_param <- (if (size =? 0)%Z then Err ZeroDivisionError
                  else Ok (4 / inject_Z size)) ;;
  win_dpss <- slepian env size shape_param ;;
  let fft_overlap := (size - step)%Z in
  spectrogram env waveform sampfreq win_dpss (length win_dpss) fft_overlap.

Definition make_spect (env : environment) (waveform : list Q) (sampfreq : Q)
    (size step : Z) (freq_cutoffs : list Q) : result song_spect :=
  '(freq_bins, time_bins, spect) <- stft env waveform sampfreq size step ;;
  lo <- py_index freq_cutoffs 0 ;;
  hi <- py_index freq_cutoffs 1 ;;
  let f_inds := np.nonzero (map (in_band lo hi) freq_bins) in
  freq_bins <- np.take freq_bins f_inds ;;
  spect <- np.take_rows spect f_inds ;;
  let spect := np.map2 np.log10 spect in
  let spect := np.flipud spect in
  let freq_bins := rev freq_bins in
  Ok (mk_song_spect spect freq_bins time_bins sampfreq).

(** ** extract_syls *)

(** The [spect_params] dictionary with the four keys the docstring
    requires; a dictionary lacking one (a KeyError) is left out. *)
Record spect_params : Type := mk_spect_params {
  window_size : Z;
  window_step : Z;
  freq_cutoffs : list Q;
  samp_freq : Q
}.

(** The values [labels_to_use] is called with: a string, or a list of
    one-character labels. *)
Inductive py_labels : Type :=
| PyStr (s : string)
| PyList (l : list ascii).

Definition is_all (v : py_labels) : bool :=
  match v with
  | PyStr s => String.eqb s "all"
  | PyList _ => false
  end.

Definition ascii_mem (c : ascii) (l : list ascii) : bool :=
  existsb (Ascii.eqb c) l.

(** [label in labels_to_use] for a one-character [label]. *)
Definition py_contains (v : py_labels) (c : ascii) : bool :=
  match v with
  | PyStr s => ascii_mem c (list_ascii_of_string s)
  | PyList l => ascii_mem c l
  end.

(** Lines 150-154: a string other than 'all' becomes the list of its
    characters; in the other branch the ValueError is built and dropped,
    so the argument goes on unchanged. *)
Definition prepare_labels (labels_to_use : py_labels) : result py_labels :=
  if negb (is_all labels_to_use) then
    match labels_to_use with
    | PyStr s => Ok (PyList (list_ascii_of_string s))
    | _ => let _ := ValueError "labels_to_use argument should be a string" in
           Ok labels_to_use
    end
  else Ok labels_to_use.

(** Lines 187-199: the widths added on each side of the segment. *)
Definition width_diff_of (syl_spect_width : Z) (temp_cols : nat) : Z :=
  (syl_spect_width - Z.of_nat temp_cols)%Z.

Definition centre_widths (width_diff : Z) : Z * Z :=
  let left_width := py_round (inject_Z width_diff / 2) in
  let right_width := (width_diff - left_width)%Z in
  (left_width, right_width).

(** Which branch of the [if]/[elif] of lines 194-199 ran. *)
Inductive clamp : Type := NoClamp | LeftClamp | RightClamp.

Definition clamp_widths (width_diff onset_bin offset_bin shape_last : Z)
    (lr : Z * Z) : clamp * (Z * Z) :=
  let '(left_width, right_width) := lr in
  if (left_width >? onset_bin)%Z then
    let left_width := onset_bin in
    let right_width := (width_diff - left_width)%Z in
    (LeftClamp, (left_width, right_width))
  else if (offset_bin + right_width >? shape_last)%Z then
    let right_width := (shape_last - offset_bin)%Z in
    let left_width := (width_diff - right_width)%Z in
    (RightClamp, (left_width, right_width))
  else (NoClamp, (left_width, right_width)).

(** Lines 186-201: the spectrogram emitted for one segment. *)
Definition syl_spect_of (spect : np.array2 np.log_value)
    (onset_bin offset_bin : nat) (syl_spect_width : Z)
    : np.array2 np.log_value :=
  let on := Z.of_nat onset_bin in
  let off := Z.of_nat offset_bin in
  let temp_syl_spect := np.slice_cols spect on off in
  let width_diff := width_diff_of syl_spect_width (np.ncols temp_syl_spect) in
  let '(_, (left_width, right_width)) :=
    clamp_widths width_diff on off (Z.of_nat (np.ncols spect))
                 (centre_widths width_diff) in
  np.slice_cols spect (on - left_width) (off + right_width).

Fixpoint extract_loop (spect : np.array2 np.log_value)
    (onsets_time_bins offsets_time_bins : list nat)
    (labels_to_use : py_labels) (syl_spect_width : Z)
    (ind : nat) (labels : list ascii)
    : result (list (np.array2 np.log_value) * list (option ascii)) :=
  match labels with
  | [] => Ok ([], [])
  | label :: rest =>
      let continue_ :=
        extract_loop spect onsets_time_bins offsets_time_bins
                     labels_to_use syl_spect_width (S ind) rest in
      let emit (label : option ascii) :=
        onset_bin <- py_index onsets_time_bins ind ;;
        offset_bin <- py_index offsets_time_bins ind ;;
        let temp_syl_spect :=
          syl_spect_of spect onset_bin offset_bin syl_spect_width in
        '(all_syl_spects, all_syl_labels) <- continue_ ;;
        Ok (temp_syl_spect :: all_syl_spects, label :: all_syl_labels) in
      if is_all labels_to_use then emit None
      else if negb (py_contains labels_to_use label) then continue_
      else emit (Some label)
  end.

Definition nearest_bin (time_bins : list Q) (t : Q) : result nat :=
  np.argmin (map (fun b => Qabs (b - t)) time_bins).

(** Lines 156-205, [labels_to_use] being what lines 150-154 leave in it. *)
Definition extract_prepared (env : environment) (cbin : string)
    (params : spect_params) (labels_to_use : py_labels)
    (syl_spect_width : Z)
    : result (list (np.array2 np.log_value) * list (option ascii)) :=
  '(dat, fs) <- load_cbin env cbin ;;
  if negb (Qeq_bool fs (samp_freq params)) then
    Err (ValueError "Sampling frequency does not match expected sampling frequency")
  else
    '(dat, fs) <- load_cbin env cbin ;;
    spect_obj <- make_spect env dat fs (window_size params)
                   (window_step params) (freq_cutoffs params) ;;
    let spect := spect spect_obj in
    let time_bins := timeBins spect_obj in
    notmat <- load_notmat env cbin ;;
    let labels := list_ascii_of_string (nm_labels notmat) in
    let onsets := map (fun t => t / 1000) (nm_onsets notmat) in
    let offsets := map (fun t => t / 1000) (nm_offsets notmat) in
    onsets_time_bins <- mapM (nearest_bin time_bins) onsets ;;
    offsets_time_bins <- mapM (nearest_bin time_bins) offsets ;;
    extract_loop spect onsets_time_bins offsets_time_bins
                 labels_to_use syl_spect_width 0 labels.

Definition extract_syls (env : environment) (cbin : string)
    (params : spect_params) (labels_to_use : py_labels)
    (syl_spect_width : Z)
    : result (list (np.array2 np.log_value) * list (option ascii)) :=
  labels_to_use <- prepare_labels labels_to_use ;;
  extract_prepared env cbin params labels_to_use syl_spect_width.

(** ** compute_amp *)

(** The element types [np.sum] is used at: real powers, and the values of
    [np.log10].  On the latter the sum of two finite logarithms is the
    logarithm of the product, [-inf] absorbs every finite value and [nan]
    absorbs everything; the empty sum is [0 = log10 1]. *)
Class Numeric (A : Type) : Type := {
  num_zero : A;
  num_add : A -> A -> A
}.

#[export] Instance Numeric_Q : Numeric Q := {
  num_zero := 0;
  num_add := Qplus
}.

Definition log_add (x y : np.log_value) : np.log_value :=
  match x, y with
  | np.NaN, _ | _, np.NaN => np.NaN
  | np.NegInf, _ | _, np.NegInf => np.NegInf
  | np.Log10 a, np.Log10 b => np.Log10 (a * b)
  end.

#[export] Instance Numeric_log : Numeric np.log_value := {
  num_zero := np.Log10 1;
  num_add := log_add
}.

(** One step of the reduction along axis 0: a row added to the running
    sums, entry by entry. *)
Fixpoint add_rows {A : Type} `{Numeric A} (acc row : list A) : list A :=
  match acc, row with
  | x :: acc', y :: row' => num_add x y :: add_rows acc' row'
  | _, _ => []
  end.

(** [np.sum(a, axis=0)]: the rows are added in order onto zeros, one per
    column. *)
Definition sum_axis0 {A : Type} `{Numeric A} (a : np.array2 A) : list A :=
  fold_left add_rows (np.rows a) (repeat num_zero (np.ncols a)).

Definition compute_amp {A : Type} `{Numeric A} (spect : np.array2 A) : list A :=
  sum_axis0 spect.

(** ** Auxiliary notions used to state and prove the properties *)

(** First differences of a 0/1 sequence framed by zeros: what the
    convolution with [[1; -1]] computes. *)
Fixpoint diffs (prev : Z) (v : list Z) : list Z :=
  match v with
  | [] => [(- prev)%Z]
  | y :: r => (y - prev)%Z :: diffs y r
  end.

(** Positions of the rising and of the falling edges of a boolean
    sequence read from position [k] on, [prev] being the state before it;
    a sequence that ends high has a falling edge one past its end. *)
Fixpoint rising_from (prev : bool) (k : nat) (bs : list bool) : list nat :=
  match bs with
  | [] => []
  | b :: r =>
      if b && negb prev then k :: rising_from b (S k) r
      else rising_from b (S k) r
  end.

Fixpoint falling_from (prev : bool) (k : nat) (bs : list bool) : list nat :=
  match bs with
  | [] => if prev then [k] else []
  | b :: r =>
      if negb b && prev then k :: falling_from b (S k) r
      else falling_from b (S k) r
  end.

(** Index-wise readings of "increasing" and of the output invariants. *)
Definition increasing (l : list Q) : Prop :=
  forall i j, (i < j < length l)%nat -> nth i l 0 < nth j l 0.

Definition nondecreasing (l : list Q) : Prop :=
  forall i j, (i <= j < length l)%nat -> nth i l 0 <= nth j l 0.

Definition paired (onsets offsets : list Q) : Prop :=
  forall i, (i < length onsets)%nat -> nth i onsets 0 < nth i offsets 0.

(** [a[idx]] when every position is in bounds. *)
Definition pick (a : list Q) (idx : list nat) : list Q :=
  map (fun i => nth i a 0) idx.

Definition gaps_exceed (m : Q) (onsets offsets : list Q) : Prop :=
  forall i, (S i < length onsets)%nat -> m < nth (S i) onsets 0 - nth i offsets 0.

(** The labels extract_syls reports for the segments labelled [labels]. *)
Definition selected_labels (labels_to_use : py_labels) (labels : list ascii)
    : list (option ascii) :=
  if is_all labels_to_use then map (fun _ => None) labels
  else map Some (filter (py_contains labels_to_use) labels).

(** What lines 181-203 return for segments given as (label, (onset bin,
    offset bin)): the window of every segment that passes the label test,
    with its reported label, in segment order. *)
Definition segment_windows (spect : np.array2 np.log_value)
    (syl_spect_width : Z) (labels_to_use : py_labels)
    (segments : list (ascii * (nat * nat)))
    : list (np.array2 np.log_value * option ascii) :=
  flat_map
    (fun segment =>
       let window :=
         syl_spect_of spect (fst (snd segment)) (snd (snd segment))
                      syl_spect_width in
       if is_all labels_to_use then [(window, None)]
       else if py_contains labels_to_use (fst segment)
            then [(window, Some (fst segment))]
            else [])
    segments.

Definition ms (n : Z) : Q := n # 1000.

(** The parameters used on the silent recording: windows of 8 samples
    every 4 samples, the band from 1000 Hz to 13000 Hz, 32000 Hz expected. *)
Definition demo_params : spect_params :=
  mk_spect_params 8 4 [1000; 13000] 32000.

(** [n] time bins one millisecond apart, starting at zero. *)
Definition bins (n : nat) : list Q := map (fun k => ms (Z.of_nat k)) (seq 0 n).

(** The rows of scipy's grid that lie in the band, each with its
    frequency, in scipy's order. *)
Definition retained (lo hi : Q) (freqs : list Q) (grid : np.array2 Q)
    : list (Q * list Q) :=
  filter (fun fr => in_band lo hi (fst fr)) (combine freqs (np.rows grid)).

(** ** A silent recording

    Concrete collaborators on which the functions can be run: a recording
    of [n] zero samples at [fs] Hz with three labelled segments.  The axes
    are the ones scipy computes for a one-sided spectrum of a recording of
    that length ([k * fs / nperseg] and [(nperseg/2 + k * step) / fs]); the
    power of silence is zero in every cell.  The window's values do not
    matter for silence and are all one. *)
Definition silent_spectrogram (waveform : list Q) (fs : Q) (window : list Q)
    (nperseg : nat) (noverlap : Z) : result (list Q * list Q * np.array2 Q) :=
  let hop := (Z.of_nat nperseg - noverlap)%Z in
  if (hop <=? 0)%Z then Err (ValueError "noverlap must be less than nperseg")
  else if (length waveform <? nperseg)%nat
  then Err (ExternalError "recording shorter than the window")
  else
    let nseg := Z.to_nat ((Z.of_nat (length waveform) - noverlap) / hop) in
    let freqs :=
      map (fun k => Qred (inject_Z (Z.of_nat k) * fs / inject_Z (Z.of_nat nperseg)))
          (seq 0 (S (nperseg / 2))) in
    let times :=
      map (fun k => Qred (inject_Z (Z.of_nat (nperseg / 2) + Z.of_nat k * hop) / fs))
          (seq 0 nseg) in
    Ok (freqs, times,
        np.mk_array2 (map (fun _ => repeat 0 nseg) freqs) nseg).

Definition silent_recording (n : nat) (fs : Q) : environment :=
  mk_environment
    (fun size _ => if (size <=? 0)%Z then Err (ValueError "window length")
                   else Ok (repeat 1 (Z.to_nat size)))
    silent_spectrogram
    (fun _ => Ok (repeat 0 n, fs))
    (fun _ => Ok (mk_notmat "axb" [1; 5; 9] [2; 6; 10])).

(** Rising and falling positions alternate, starting with a rising one,
    none below [lo]. *)
Inductive alternate : nat -> list nat -> list nat -> Prop :=
| alternate_nil (lo : nat) : alternate lo [] []
| alternate_cons (lo r f : nat) (R F : list nat) :
    (lo <= r)%nat -> (r < f)%nat -> alternate (S f) R F ->
    alternate lo (r :: R) (f :: F).

(** The amplitude at bin [k] exists and exceeds the threshold. *)
Definition above (amp : list Q) (threshold : Q) (k : nat) : Prop :=
  (k < length amp)%nat /\ nth k amp 0 > threshold.

(** A segment lasts longer than [m]. *)
Definition lasts_longer (m : Q) (segment : Q * Q) : bool :=
  Qgtb (snd segment - fst segment) m.

(** Every row has as many entries as the shape says. *)
Definition rectangular {A : Type} (a : np.array2 A) : Prop :=
  Forall (fun r => length r = np.ncols a) (np.rows a).

(** The sum of column [j], added up from the first row on. *)
Definition column_sum {A : Type} `{Numeric A} (a : np.array2 A) (j : nat) : A :=
  fold_left num_add (map (fun r => nth j r num_zero) (np.rows a)) num_zero.

(** * Properties *)

(** ** The error monad *)

Lemma bind_Ok {A B : Type} (m : result A) (k : A -> result B) (r : B) :
  bind m k = Ok r -> exists a, m = Ok a /\ k a = Ok r.
Proof. destruct m; simpl; [eauto | discriminate]. Qed.

Ltac bind_inv H :=
  let a := fresh "v" in
  let E := fresh "E" in
  apply bind_Ok in H; destruct H as (a & E & H).

(** ** Comparisons *)

Lemma Qgtb_true (x y : Q) : Qgtb x y = true <-> y < x.
Proof.
  unfold Qgtb. rewrite negb_true_iff, <- not_true_iff_false, Qle_bool_iff.
  split; [apply Qnot_le_lt | apply Qlt_not_le].
Qed.

Lemma Qltb_true (x y : Q) : Qltb x y = true <-> x < y.
Proof. apply (Qgtb_true y x). Qed.

Lemma Qgeb_true (x y : Q) : Qgeb x y = true <-> y <= x.
Proof. apply Qle_bool_iff. Qed.

Lemma in_band_true (lo hi f : Q) : in_band lo hi f = true <-> lo <= f /\ f < hi.
Proof. unfold in_band. now rewrite andb_true_iff, Qgeb_true, Qltb_true. Qed.

(** ** Lists read by position *)

Lemma StronglySorted_nth {A : Type} (R : A -> A -> Prop) (l : list A) (d : A) :
  StronglySorted R l ->
  forall i j, (i < j < length l)%nat -> R (nth i l d) (nth j l d).
Proof.
  induction 1 as [|a l Hs IH Hall]; intros i j Hij; simpl in *; [lia|].
  destruct j as [|j]; [lia|]. destruct i as [|i].
  - rewrite Forall_forall in Hall. apply Hall, nth_In. lia.
  - apply IH. lia.
Qed.

Lemma Forall2_nth_lt (l l' : list nat) :
  Forall2 lt l l' ->
  length l = length l' /\
  forall i, (i < length l)%nat -> (nth i l 0 < nth i l' 0)%nat.
Proof.
  induction 1 as [|x y l l' Hxy HF [IHlen IH]]; simpl.
  - split; [reflexivity | intros; lia].
  - split; [now f_equal|]. intros [|i] Hi; [assumption | apply IH; lia].
Qed.

Lemma increasing_of_sorted (l : list Q) : StronglySorted Qlt l -> increasing l.
Proof. intros H i j Hij. now apply StronglySorted_nth. Qed.

Lemma increasing_nondecreasing (l : list Q) : increasing l -> nondecreasing l.
Proof.
  intros H i j Hij. destruct (Nat.eq_dec i j) as [->|Hne].
  - apply Qle_refl.
  - apply Qlt_le_weak, H. lia.
Qed.

(** ** np.nonzero *)

Lemma nonzero_from_bounds (k : nat) (m : list bool) :
  Forall (fun i => (k <= i < k + length m)%nat) (np.nonzero_from k m).
Proof.
  revert k; induction m as [|b m IH]; intro k; simpl; [constructor|].
  assert (Forall (fun i => (k <= i < k + S (length m))%nat)
                 (np.nonzero_from (S k) m)) as Htl.
  { eapply Forall_impl; [|exact (IH (S k))]. simpl; intros; lia. }
  destruct b; [constructor; [lia | assumption] | assumption].
Qed.

Lemma nonzero_from_sorted (k : nat) (m : list bool) :
  StronglySorted lt (np.nonzero_from k m).
Proof.
  revert k; induction m as [|b m IH]; intro k; simpl; [constructor|].
  destruct b; [|apply IH]. constructor; [apply IH|].
  eapply Forall_impl; [|exact (nonzero_from_bounds (S k) m)].
  simpl; intros; lia.
Qed.

Lemma nonzero_from_true (k : nat) (m : list bool) (i : nat) :
  In i (np.nonzero_from k m) -> nth (i - k) m false = true.
Proof.
  revert k; induction m as [|b m IH]; intros k Hin; simpl in Hin; [contradiction|].
  assert (In i (np.nonzero_from (S k) m) -> nth (i - k) (b :: m) false = true)
    as Htl.
  { intro H. pose proof (nonzero_from_bounds (S k) m) as Hb.
    rewrite Forall_forall in Hb. specialize (Hb _ H).
    replace (i - k)%nat with (S (i - S k)) by lia. simpl. now apply IH. }
  destruct b; [|now apply Htl].
  destruct Hin as [<-|Hin]; [|now apply Htl].
  now rewrite Nat.sub_diag.
Qed.

Lemma nonzero_true (m : list bool) (i : nat) :
  In i (np.nonzero m) -> (i < length m)%nat /\ nth i m false = true.
Proof.
  intro Hin. split.
  - pose proof (nonzero_from_bounds 0 m) as Hb. rewrite Forall_forall in Hb.
    apply Hb in Hin. lia.
  - apply nonzero_from_true in Hin. now rewrite Nat.sub_0_r in Hin.
Qed.

Lemma nonzero_nth_lt (m : list bool) (i j : nat) :
  (i < j < length (np.nonzero m))%nat ->
  (nth i (np.nonzero m) 0 < nth j (np.nonzero m) 0)%nat.
Proof. apply StronglySorted_nth, nonzero_from_sorted. Qed.

(** ** Indexing by an array of positions *)

Lemma take_Ok {A : Type} (a : list A) (d : A) (idx : list nat) (xs : list A) :
  np.take a idx = Ok xs ->
  xs = map (fun i => nth i a d) idx /\ Forall (fun i => (i < length a)%nat) idx.
Proof.
  revert xs; induction idx as [|i idx IH]; intros xs H; simpl in H.
  - inversion H; subst. split; [reflexivity | constructor].
  - destruct (nth_error a i) as [x|] eqn:Hi; [|discriminate].
    bind_inv H. inversion H; subst. destruct (IH _ E) as [-> Hall].
    split.
    + simpl. f_equal. symmetry. now apply nth_error_nth.
    + constructor; [|assumption]. apply nth_error_Some. congruence.
Qed.

Lemma take_in_range {A : Type} (a : list A) (d : A) (idx : list nat) :
  Forall (fun i => (i < length a)%nat) idx ->
  np.take a idx = Ok (map (fun i => nth i a d) idx).
Proof.
  induction 1 as [|i idx Hi Hall IH]; simpl; [reflexivity|].
  rewrite (nth_error_nth' a d Hi), IH. reflexivity.
Qed.

Lemma take_Err {A : Type} (a : list A) (idx : list nat) (e : exn) :
  np.take a idx = Err e -> e = IndexError.
Proof.
  induction idx as [|i idx IH]; simpl; [discriminate|].
  destruct (nth_error a i); [|now inversion 1].
  destruct (np.take a idx); simpl; [discriminate|].
  intro H. apply IH. now inversion H.
Qed.

Lemma take_out_of_range {A : Type} (a : list A) (idx : list nat) (i : nat) :
  In i idx -> (length a <= i)%nat -> np.take a idx = Err IndexError.
Proof.
  intros Hin Hi. destruct (np.take a idx) as [xs|e] eqn:E.
  - destruct a as [|d a'].
    + destruct idx as [|j idx]; [contradiction|]. simpl in E.
      destruct j; discriminate.
    + apply (take_Ok _ d) in E. destruct E as [_ Hall].
      rewrite Forall_forall in Hall. apply Hall in Hin. lia.
  - f_equal. now apply take_Err in E.
Qed.

Lemma take_length {A : Type} (a : list A) (idx : list nat) (xs : list A) :
  np.take a idx = Ok xs -> length xs = length idx.
Proof.
  revert xs; induction idx as [|i idx IH]; intros xs H; simpl in H.
  - now inversion H.
  - destruct (nth_error a i); [|discriminate]. bind_inv H.
    inversion H; subst. simpl. f_equal. now apply IH.
Qed.

(** ** Edge detection by convolution *)

Lemma add_pad_nil_r (a : list Z) : np.add_pad a [] = a.
Proof. now destruct a. Qed.

Lemma shifted_difference (r : list Z) (q : Z) :
  np.add_pad (map (Z.mul 1) r) (q :: map (Z.mul (-1)) r) = diffs (- q) r.
Proof.
  revert q; induction r as [|y r IH]; intro q; simpl.
  - now rewrite Z.opp_involutive.
  - rewrite IH. f_equal; [destruct y; lia | f_equal; destruct y; lia].
Qed.

Lemma convolve_diffs (x : Z) (r : list Z) :
  np.convolve [1%Z; (-1)%Z] (x :: r) = Ok (diffs 0 (x :: r)).
Proof.
  unfold np.convolve. cbn [np.convolve_full map np.add_pad].
  rewrite add_pad_nil_r, shifted_difference. simpl diffs.
  do 2 f_equal; [destruct x; lia | f_equal; destruct x; lia].
Qed.

Lemma diffs_length (prev : Z) (v : list Z) : length (diffs prev v) = S (length v).
Proof. revert prev; induction v; intro prev; simpl; [reflexivity | now rewrite IHv]. Qed.

Lemma last_cons {A : Type} (x : A) (l : list A) (d : A) :
  last (x :: l) d = last l x.
Proof.
  revert x d; induction l as [|y l IH]; intros x d; [reflexivity|].
  change (last (x :: y :: l) d) with (last (y :: l) d).
  now rewrite (IH y d), (IH y x).
Qed.

Lemma diffs_last (v : list Z) (prev : Z) :
  nth (length v) (diffs prev v) 0%Z = (- last v prev)%Z.
Proof.
  revert prev; induction v as [|y r IH]; intro prev; [reflexivity|].
  cbn [length diffs nth]. now rewrite IH, last_cons.
Qed.

Lemma rising_of_diffs (bs : list bool) (prev : bool) (k : nat) :
  np.nonzero_from k
    (map (fun c => (c >? 0)%Z) (diffs (Z_of_bool prev) (map Z_of_bool bs)))
  = rising_from prev k bs.
Proof.
  revert prev k; induction bs as [|b r IH]; intros prev k.
  - now destruct prev.
  - cbn [map diffs np.nonzero_from rising_from]. rewrite IH.
    now destruct b, prev.
Qed.

Lemma falling_of_diffs (bs : list bool) (prev : bool) (k : nat) :
  np.nonzero_from k
    (map (fun c => (c <? 0)%Z) (diffs (Z_of_bool prev) (map Z_of_bool bs)))
  = falling_from prev k bs.
Proof.
  revert prev k; induction bs as [|b r IH]; intros prev k.
  - now destruct prev.
  - cbn [map diffs np.nonzero_from falling_from]. rewrite IH.
    now destruct b, prev.
Qed.

Lemma rising_bounds (bs : list bool) (prev : bool) (k : nat) :
  Forall (fun i => (i < k + length bs)%nat) (rising_from prev k bs).
Proof.
  rewrite <- rising_of_diffs.
  pose proof (nonzero_from_bounds k
    (map (fun c => (c >? 0)%Z) (diffs (Z_of_bool prev) (map Z_of_bool bs)))) as Hb.
  revert prev k Hb; induction bs as [|b r IH]; intros prev k Hb.
  - destruct prev; constructor.
  - rewrite rising_of_diffs. cbn [rising_from length].
    assert (Forall (fun i => (i < k + S (length r))%nat) (rising_from b (S k) r)).
    { rewrite <- rising_of_diffs. eapply Forall_impl; [|apply IH].
      - simpl; intros; lia.
      - apply nonzero_from_bounds. }
    destruct (b && negb prev); [constructor; [lia | assumption] | assumption].
Qed.

Lemma falling_lower (bs : list bool) (prev : bool) (k : nat) :
  Forall (fun i => (k <= i)%nat) (falling_from prev k bs).
Proof.
  rewrite <- falling_of_diffs. eapply Forall_impl; [|apply nonzero_from_bounds].
  simpl; intros; lia.
Qed.

Lemma falling_at_end (bs : list bool) (prev : bool) (k : nat) :
  last bs prev = true -> In (k + length bs)%nat (falling_from prev k bs).
Proof.
  revert prev k; induction bs as [|b r IH]; intros prev k Hl.
  - simpl in *. subst. rewrite Nat.add_0_r. now left.
  - assert (In (k + length (b :: r))%nat (falling_from b (S k) r)) as Hin.
    { replace (k + length (b :: r))%nat with (S k + length r)%nat
        by (simpl; lia).
      apply IH. now rewrite <- (last_cons b r prev). }
    cbn [falling_from]. destruct (negb b && prev); [now right | assumption].
Qed.

(** Every rising edge is followed by its own falling edge. *)
Lemma edges_paired (bs : list bool) (prev : bool) (k : nat) :
  if prev then
    exists f0 F, falling_from prev k bs = f0 :: F /\
                 Forall2 lt (rising_from prev k bs) F
  else Forall2 lt (rising_from prev k bs) (falling_from prev k bs).
Proof.
  revert prev k; induction bs as [|b r IH]; intros prev k.
  - destruct prev; simpl; [exists k, []; split; [reflexivity|] |]; constructor.
  - pose proof (IH b (S k)) as Hb.
    pose proof (falling_lower r b (S k)) as Hlow.
    destruct prev, b; cbn [rising_from falling_from andb negb]; try assumption.
    + destruct Hb as [|]; eauto.
    + destruct Hb as (f0 & F & HF & Hp). rewrite HF in *.
      inversion Hlow; subst. constructor; [lia | assumption].
Qed.

Lemma edges_of_song (bs : list bool) :
  let R := rising_from false 0 bs in
  let F := falling_from false 0 bs in
  length R = length F /\
  forall i, (i < length R)%nat -> (nth i R 0 < nth i F 0)%nat.
Proof. apply Forall2_nth_lt, (edges_paired bs false 0). Qed.

(** ** Elementwise subtraction *)

Lemma subtract_same_length (a b : list Q) :
  length a = length b -> np.subtract a b = Ok (np.sub_same a b).
Proof. intro H. unfold np.subtract. now rewrite H, Nat.eqb_refl. Qed.

Lemma sub_same_length (a b : list Q) :
  length a = length b -> length (np.sub_same a b) = length a.
Proof.
  revert b; induction a as [|x a IH]; intros [|y b] H; simpl in *;
    try discriminate; [reflexivity|]. f_equal. apply IH. lia.
Qed.

Lemma sub_same_nth (a b : list Q) (i : nat) :
  length a = length b -> (i < length a)%nat ->
  nth i (np.sub_same a b) 0 = nth i a 0 - nth i b 0.
Proof.
  revert b i; induction a as [|x a IH]; intros [|y b] i H Hi; simpl in *;
    try discriminate; [lia|].
  destruct i; [reflexivity|]. apply IH; lia.
Qed.

Lemma nth_tl {A : Type} (l : list A) (d : A) (i : nat) :
  nth i (tl l) d = nth (S i) l d.
Proof. destruct l; [now destruct i | reflexivity]. Qed.

Lemma nth_removelast {A : Type} (l : list A) (d : A) (i : nat) :
  (S i < length l)%nat -> nth i (removelast l) d = nth i l d.
Proof.
  revert i; induction l as [|x l IH]; intros i Hi; simpl in *; [lia|].
  destruct l as [|y l]; [simpl in Hi; lia|].
  destruct i; [reflexivity|]. apply IH. simpl in *; lia.
Qed.

Lemma removelast_length {A : Type} (l : list A) :
  length (removelast l) = pred (length l).
Proof.
  induction l as [|x l IH]; [reflexivity|].
  destruct l as [|y l]; [reflexivity|].
  change (removelast (x :: y :: l)) with (x :: removelast (y :: l)).
  simpl length in *. now rewrite IH.
Qed.

Lemma tl_length {A : Type} (l : list A) : length (tl l) = pred (length l).
Proof. now destruct l. Qed.

(** ** Selecting segments by a keep-mask *)

Lemma pick_length (a : list Q) (idx : list nat) : length (pick a idx) = length idx.
Proof. apply length_map. Qed.

Lemma pick_nth (a : list Q) (idx : list nat) (j : nat) :
  (j < length idx)%nat -> nth j (pick a idx) 0 = nth (nth j idx 0%nat) a 0.
Proof.
  intro Hj. unfold pick.
  rewrite (nth_indep _ 0 ((fun i => nth i a 0) 0%nat)) by now rewrite length_map.
  apply (map_nth (fun i => nth i a 0)).
Qed.

Lemma mask_nth (p : Q -> bool) (l : list Q) (i : nat) :
  (i < length l)%nat -> nth i (map p l) false = p (nth i l 0).
Proof.
  intro Hi. rewrite (nth_indep _ false (p 0)) by now rewrite length_map.
  apply map_nth.
Qed.

Section Selection.

Variables (onsets offsets : list Q) (mask : list bool) (m : Q).

Local Abbreviation keep := (np.nonzero mask).

Hypothesis same_length : length onsets = length offsets.
Hypothesis mask_fits : (length mask <= length onsets)%nat.

Lemma keep_in_range (j : nat) :
  (j < length keep)%nat -> (nth j keep 0 < length onsets)%nat.
Proof.
  intro Hj. destruct (nonzero_true mask (nth j keep 0%nat)) as [H _].
  - now apply nth_In.
  - lia.
Qed.

Lemma take_onsets : np.take onsets keep = Ok (pick onsets keep).
Proof.
  apply take_in_range, Forall_forall. intros i Hi.
  apply nonzero_true in Hi. lia.
Qed.

Lemma take_offsets : np.take offsets keep = Ok (pick offsets keep).
Proof.
  apply take_in_range, Forall_forall. intros i Hi.
  apply nonzero_true in Hi. lia.
Qed.

Lemma kept_same_length :
  length (pick onsets keep) = length (pick offsets keep).
Proof. now rewrite !pick_length. Qed.

Lemma kept_paired : paired onsets offsets -> paired (pick onsets keep) (pick offsets keep).
Proof.
  intros Hp i Hi. rewrite pick_length in Hi. rewrite !pick_nth by assumption.
  now apply Hp, keep_in_range.
Qed.

Lemma kept_nondecreasing :
  nondecreasing onsets -> nondecreasing (pick onsets keep).
Proof.
  intros Hs i j Hij. rewrite pick_length in Hij. rewrite !pick_nth by lia.
  apply Hs. split; [|apply keep_in_range; lia].
  destruct (Nat.eq_dec i j) as [->|Hne]; [lia|].
  apply Nat.lt_le_incl, nonzero_nth_lt. lia.
Qed.

Lemma kept_gaps_exceed :
  nondecreasing onsets ->
  (forall i, In i keep -> (S i < length onsets)%nat ->
             m < nth (S i) onsets 0 - nth i offsets 0) ->
  gaps_exceed m (pick onsets keep) (pick offsets keep).
Proof.
  intros Hs Hgap i Hi. rewrite pick_length in Hi. rewrite !pick_nth by lia.
  pose proof (nonzero_nth_lt mask i (S i)) as Hlt.
  pose proof (keep_in_range (S i) Hi) as Hr.
  assert (m < nth (S (nth i keep 0%nat)) onsets 0 - nth (nth i keep 0%nat) offsets 0)
    as Hm by (apply Hgap; [apply nth_In|]; lia).
  assert (nth (S (nth i keep 0%nat)) onsets 0 <= nth (nth (S i) keep 0%nat) onsets 0)
    as Hle by (apply Hs; lia).
  lra.
Qed.

End Selection.

Lemma kept_mask (p : Q -> bool) (values : list Q) (j : nat) :
  let keep := np.nonzero (map p values) in
  (j < length keep)%nat ->
  (nth j keep 0 < length values)%nat /\ p (nth (nth j keep 0%nat) values 0) = true.
Proof.
  intros keep Hj. destruct (nonzero_true (map p values) (nth j keep 0%nat)) as [Hlt Ht].
  - now apply nth_In.
  - rewrite length_map in Hlt. split; [assumption|]. now rewrite mask_nth in Ht.
Qed.

(** ** The three stages of segment_song *)

Lemma crossings_edges (amp time_bins : list Q) (threshold : Q) (O F : list Q) :
  threshold_crossings amp time_bins threshold = Ok (O, F) ->
  let bs := map (fun a => Qgtb a threshold) amp in
  O = pick time_bins (rising_from false 0 bs) /\
  F = pick time_bins (falling_from false 0 bs) /\
  Forall (fun i => (i < length time_bins)%nat) (rising_from false 0 bs) /\
  Forall (fun i => (i < length time_bins)%nat) (falling_from false 0 bs).
Proof.
  intros H bs. unfold threshold_crossings in H. fold bs in H.
  destruct amp as [|a amp]; [discriminate|].
  change (map Z_of_bool bs)
    with (Z_of_bool (Qgtb a threshold)
          :: map Z_of_bool (map (fun a => Qgtb a threshold) amp)) in H.
  rewrite convolve_diffs in H. cbn [bind] in H.
  change (Z_of_bool (Qgtb a threshold)
          :: map Z_of_bool (map (fun a => Qgtb a threshold) amp))
    with (map Z_of_bool bs) in H.
  unfold np.nonzero in H.
  pose proof (rising_of_diffs bs false 0) as Hrise.
  pose proof (falling_of_diffs bs false 0) as Hfall.
  cbn [Z_of_bool] in Hrise, Hfall. rewrite Hrise, Hfall in H.
  bind_inv H. bind_inv H. inversion H; subst.
  apply (take_Ok _ 0) in E, E0. destruct E as [-> HR], E0 as [-> HF].
  repeat split; assumption.
Qed.

Lemma crossings_invariants (amp time_bins : list Q) (threshold : Q) (O F : list Q) :
  increasing time_bins ->
  threshold_crossings amp time_bins threshold = Ok (O, F) ->
  length O = length F /\ paired O F /\ nondecreasing O.
Proof.
  intros Hinc H. apply crossings_edges in H.
  destruct H as (-> & -> & HR & HF).
  set (bs := map (fun a => Qgtb a threshold) amp) in *.
  destruct (edges_of_song bs) as [Hlen Hlt].
  rewrite Forall_forall in HR, HF.
  split; [now rewrite !pick_length|]. split.
  - intros i Hi. rewrite pick_length in Hi. rewrite !pick_nth by lia.
    apply Hinc. split; [now apply Hlt|]. apply HF, nth_In. lia.
  - intros i j Hij. rewrite pick_length in Hij. rewrite !pick_nth by lia.
    apply increasing_nondecreasing; [assumption|].
    split; [|apply HR, nth_In; lia].
    destruct (Nat.eq_dec i j) as [->|Hne]; [lia|].
    apply Nat.lt_le_incl.
    apply (StronglySorted_nth lt (rising_from false 0 bs) 0%nat); [|lia].
    rewrite <- rising_of_diffs. apply nonzero_from_sorted.
Qed.

Lemma drop_short_gaps_kept (O F : list Q) (m : Q) :
  length O = length F ->
  let keep := np.nonzero (map (fun d => Qgtb d m)
                              (np.sub_same (tl O) (removelast F))) in
  drop_short_gaps O F m = Ok (pick O keep, pick F keep).
Proof.
  intros Hlen keep. unfold drop_short_gaps, np.from1, np.upto_last.
  assert (length (tl O) = length (removelast F)) as Hl
    by (rewrite tl_length, removelast_length; now f_equal).
  rewrite (subtract_same_length _ _ Hl). cbn [bind]. subst keep.
  assert (length (map (fun d => Qgtb d m) (np.sub_same (tl O) (removelast F)))
          <= length O)%nat as Hfit.
  { rewrite length_map, (sub_same_length _ _ Hl), tl_length. lia. }
  rewrite (take_onsets O F _ Hlen Hfit), (take_offsets O F _ Hlen Hfit).
  reflexivity.
Qed.

Lemma drop_short_gaps_invariants (O F O' F' : list Q) (m : Q) :
  length O = length F -> paired O F -> nondecreasing O ->
  drop_short_gaps O F m = Ok (O', F') ->
  length O' = length F' /\ paired O' F' /\ nondecreasing O' /\
  gaps_exceed m O' F'.
Proof.
  intros Hlen Hp Hs H. rewrite (drop_short_gaps_kept O F m Hlen) in H.
  inversion H; subst; clear H.
  assert (length (tl O) = length (removelast F)) as Hl
    by (rewrite tl_length, removelast_length; now f_equal).
  assert (length (map (fun d => Qgtb d m) (np.sub_same (tl O) (removelast F)))
          <= length O)%nat as Hfit.
  { rewrite length_map, (sub_same_length _ _ Hl), tl_length. lia. }
  split; [now apply kept_same_length|].
  split; [now apply kept_paired|].
  split; [now apply (kept_nondecreasing O F)|].
  apply kept_gaps_exceed; try assumption.
  intros i Hin Hi. apply nonzero_true in Hin. destruct Hin as [Hlt Ht].
  rewrite length_map in Hlt. rewrite mask_nth in Ht by assumption.
  apply Qgtb_true in Ht.
  rewrite (sub_same_length _ _ Hl) in Hlt.
  rewrite (sub_same_nth _ _ _ Hl Hlt), nth_tl, nth_removelast in Ht by lia.
  exact Ht.
Qed.

Lemma drop_short_syllables_kept (O F : list Q) (m : Q) :
  length O = length F ->
  let keep := np.nonzero (map (fun d => Qgtb d m) (np.sub_same F O)) in
  drop_short_syllables O F m = Ok (pick O keep, pick F keep).
Proof.
  intros Hlen keep. unfold drop_short_syllables.
  rewrite (subtract_same_length F O (eq_sym Hlen)). cbn [bind]. subst keep.
  assert (length (map (fun d => Qgtb d m) (np.sub_same F O)) <= length O)%nat
    as Hfit by (rewrite length_map, (sub_same_length F O (eq_sym Hlen)); lia).
  rewrite (take_onsets O F _ Hlen Hfit), (take_offsets O F _ Hlen Hfit).
  reflexivity.
Qed.

Lemma drop_short_syllables_invariants (O F O' F' : list Q) (m g : Q) :
  length O = length F -> paired O F -> nondecreasing O -> gaps_exceed g O F ->
  drop_short_syllables O F m = Ok (O', F') ->
  length O' = length F' /\ paired O' F' /\ gaps_exceed g O' F' /\
  (forall i, (i < length O')%nat -> m < nth i F' 0 - nth i O' 0).
Proof.
  intros Hlen Hp Hs Hg H. rewrite (drop_short_syllables_kept O F m Hlen) in H.
  inversion H; subst; clear H.
  assert (length (map (fun d => Qgtb d m) (np.sub_same F O)) <= length O)%nat
    as Hfit by (rewrite length_map, (sub_same_length F O (eq_sym Hlen)); lia).
  split; [now apply kept_same_length|].
  split; [now apply kept_paired|].
  split.
  - apply kept_gaps_exceed; try assumption. intros i _ Hi. now apply Hg.
  - intros i Hi. rewrite pick_length in Hi. rewrite !pick_nth by assumption.
    destruct (kept_mask (fun d => Qgtb d m) (np.sub_same F O) i Hi) as [Hlt Ht].
    apply Qgtb_true in Ht.
    rewrite (sub_same_length F O (eq_sym Hlen)) in Hlt.
    now rewrite (sub_same_nth F O _ (eq_sym Hlen) Hlt) in Ht.
Qed.

(** C4: every output of segment_song on increasing time bins has onsets
    and offsets of equal length; each offset is later than its onset; each
    segment lasts longer than [min_syl_dur]; and each onset follows the
    previous offset by more than [min_silent_dur]. *)
Theorem segment_song_output_invariants
    (amp time_bins : list Q) (threshold min_syl_dur min_silent_dur : Q)
    (onsets offsets : list Q) :
  StronglySorted Qlt time_bins ->
  segment_song amp time_bins threshold min_syl_dur min_silent_dur
    = Ok (onsets, offsets) ->
  length onsets = length offsets /\
  (forall i, (i < length onsets)%nat -> nth i offsets 0 > nth i onsets 0) /\
  (forall i, (i < length onsets)%nat ->
             nth i offsets 0 - nth i onsets 0 > min_syl_dur) /\
  (forall i, (0 < i < length onsets)%nat ->
             nth i onsets 0 - nth (i - 1) offsets 0 > min_silent_dur).
Proof.
  intros Hsorted H. unfold segment_song in H.
  bind_inv H. destruct v as [O F]. bind_inv H. destruct v as [O1 F1].
  apply crossings_invariants in E; [|now apply increasing_of_sorted].
  destruct E as (Hlen & Hp & Hs).
  apply drop_short_gaps_invariants in E0; try assumption.
  destruct E0 as (Hlen1 & Hp1 & Hs1 & Hg1).
  apply (drop_short_syllables_invariants O1 F1 onsets offsets
           min_syl_dur min_silent_dur) in H; try assumption.
  destruct H as (Hlen2 & Hp2 & Hg2 & Hd2).
  split; [assumption|]. split; [exact Hp2|]. split; [exact Hd2|].
  intros i Hi. destruct i as [|i]; [lia|].
  replace (S i - 1)%nat with i by lia. apply Hg2. lia.
Qed.

Ltac sorted_by_computation :=
  repeat (constructor; try reflexivity).

Lemma segment_song_output_invariants_witness :
  let onsets := [ms 1; ms 8] in
  let offsets := [ms 4; ms 11] in
  length onsets = length offsets /\
  (forall i, (i < length onsets)%nat -> nth i offsets 0 > nth i onsets 0) /\
  (forall i, (i < length onsets)%nat ->
             nth i offsets 0 - nth i onsets 0 > 3 # 2000) /\
  (forall i, (0 < i < length onsets)%nat ->
             nth i onsets 0 - nth (i - 1) offsets 0 > ms 2).
Proof.
  apply (segment_song_output_invariants
           [0; 6000; 6000; 6000; 0; 0; 0; 0; 6000; 6000; 6000; 0; 0; 0; 6000; 0]
           (bins 16) 5000 (3 # 2000) (ms 2)).
  - unfold bins, ms. simpl. sorted_by_computation.
  - vm_compute. reflexivity.
Defined.

(** ** The last amplitude above threshold *)

Lemma last_map {A B : Type} (f : A -> B) (l : list A) (d : A) :
  last (map f l) (f d) = f (last l d).
Proof.
  induction l as [|x l IH]; [reflexivity|].
  destruct l as [|y l]; [reflexivity|]. exact IH.
Qed.

(** C6: when the last amplitude exceeds the threshold and [time_bins] is as
    long as [amp], the full convolution has [len(amp) + 1] entries, its
    entry at position [len(amp)] is negative, and segment_song fails with
    IndexError. *)
Theorem segment_song_trailing_edge_out_of_bounds
    (amp time_bins : list Q) (threshold min_syl_dur min_silent_dur : Q) :
  length time_bins = length amp ->
  amp <> [] ->
  last amp 0 > threshold ->
  exists conv,
    np.convolve [1%Z; (-1)%Z]
      (map Z_of_bool (map (fun a => Qgtb a threshold) amp)) = Ok conv /\
    length conv = S (length amp) /\
    (nth (length amp) conv 0 < 0)%Z /\
    segment_song amp time_bins threshold min_syl_dur min_silent_dur
      = Err IndexError.
Proof.
  intros Hlen Hne Hlast. destruct amp as [|a r]; [contradiction|].
  set (f := fun a => Qgtb a threshold).
  set (bs := map f (a :: r)).
  assert (last bs false = true) as Hhigh.
  { unfold bs. cbn [map]. rewrite last_cons, last_map, <- (last_cons a r 0).
    now apply Qgtb_true. }
  exists (diffs 0 (map Z_of_bool bs)). split; [|split; [|split]].
  - unfold bs. cbn [map]. apply convolve_diffs.
  - rewrite diffs_length. unfold bs. now rewrite !length_map.
  - replace (length (a :: r)) with (length (map Z_of_bool bs))
      by (unfold bs; now rewrite !length_map).
    rewrite diffs_last. change 0%Z with (Z_of_bool false).
    rewrite last_map, Hhigh. reflexivity.
  - unfold segment_song, threshold_crossings. fold f. fold bs.
    replace (np.convolve [1%Z; (-1)%Z] (map Z_of_bool bs))
      with (Ok (diffs 0 (map Z_of_bool bs)))
      by (unfold bs; cbn [map]; now rewrite convolve_diffs).
    cbn [bind]. unfold np.nonzero.
    pose proof (rising_of_diffs bs false 0) as Hrise.
    pose proof (falling_of_diffs bs false 0) as Hfall.
    cbn [Z_of_bool] in Hrise, Hfall. rewrite Hrise, Hfall.
    rewrite (take_in_range time_bins 0).
    + cbn [bind].
      rewrite (take_out_of_range time_bins _ (0 + length bs)%nat).
      * reflexivity.
      * now apply falling_at_end.
      * unfold bs. rewrite length_map. simpl. simpl in Hlen. lia.
    + eapply Forall_impl; [|apply (rising_bounds bs false 0)].
      unfold bs. intros i Hi. rewrite length_map in Hi. simpl in *. lia.
Qed.

Lemma segment_song_trailing_edge_out_of_bounds_witness :
  exists conv,
    np.convolve [1%Z; (-1)%Z]
      (map Z_of_bool (map (fun a => Qgtb a 5000) [0; 6000; 0; 6000]))
      = Ok conv /\
    length conv = 5%nat /\
    (nth 4 conv 0 < 0)%Z /\
    segment_song [0; 6000; 0; 6000] (bins 4) 5000 (ms 20) (ms 2)
      = Err IndexError.
Proof.
  apply (segment_song_trailing_edge_out_of_bounds
           [0; 6000; 0; 6000] (bins 4) 5000 (ms 20) (ms 2)).
  - reflexivity.
  - discriminate.
  - reflexivity.
Defined.

(** ** What the gap step removes *)

Lemma nonzero_from_length (k : nat) (m : list bool) :
  (length (np.nonzero_from k m) <= length m)%nat.
Proof.
  revert k; induction m as [|b m IH]; intro k; simpl; [lia|].
  specialize (IH (S k)). destruct b; simpl; lia.
Qed.

(** Whatever the gaps are, the step returns fewer segments than it is
    given: the mask has one entry per gap, so the last segment is never
    selected. *)
Lemma drop_short_gaps_loses_last (O F O' F' : list Q) (m : Q) :
  length O = length F -> O <> [] ->
  drop_short_gaps O F m = Ok (O', F') ->
  (length O' < length O)%nat.
Proof.
  intros Hlen Hne H. rewrite (drop_short_gaps_kept O F m Hlen) in H.
  inversion H; subst; clear H. rewrite pick_length.
  eapply Nat.le_lt_trans; [apply nonzero_from_length|].
  assert (length (tl O) = length (removelast F)) as Hl
    by (rewrite tl_length, removelast_length; now f_equal).
  rewrite length_map, (sub_same_length _ _ Hl), tl_length.
  destruct O; [contradiction | simpl; lia].
Qed.

(** C1 (failing inputs): two segments 4 ms apart with
    [min_silent_dur] = 2 ms: no gap is too short, yet the second segment
    is removed.  Three segments with gaps of 2 ms and 5 ms and
    [min_silent_dur] = 3 ms: the first two are not merged into (1 ms, 5 ms);
    the first and the last segment are removed instead. *)
Theorem gap_step_removes_segments_not_gaps :
  drop_short_gaps [ms 1; ms 6] [ms 2; ms 7] (ms 2) = Ok ([ms 1], [ms 2]) /\
  segment_song [0; 6000; 0; 0; 0; 0; 6000; 0] (bins 8) 5000 0 (ms 2)
    = Ok ([ms 1], [ms 2]) /\
  drop_short_gaps [ms 1; ms 4; ms 10] [ms 2; ms 5; ms 11] (ms 3)
    = Ok ([ms 4], [ms 5]) /\
  segment_song [0; 6000; 0; 0; 6000; 0; 0; 0; 0; 0; 6000; 0] (bins 12)
               5000 0 (ms 3)
    = Ok ([ms 4], [ms 5]).
Proof. repeat split; vm_compute; reflexivity. Qed.

(** ** make_spect *)

Lemma take_masked {A B : Type} (p : A -> bool) (keys : list A)
    (vals pre : list B) :
  (length keys <= length vals)%nat ->
  np.take (pre ++ vals) (np.nonzero_from (length pre) (map p keys))
  = Ok (map snd (filter (fun kv => p (fst kv)) (combine keys vals))).
Proof.
  revert vals pre; induction keys as [|k ks IH]; intros vals pre Hlen;
    [reflexivity|].
  destruct vals as [|v vs]; [simpl in Hlen; lia|].
  assert (np.take (pre ++ v :: vs) (np.nonzero_from (S (length pre)) (map p ks))
          = Ok (map snd (filter (fun kv => p (fst kv)) (combine ks vs)))) as Htl.
  { specialize (IH vs (pre ++ [v])). rewrite <- app_assoc in IH.
    rewrite length_app, Nat.add_1_r in IH. apply IH. simpl in Hlen. lia. }
  cbn [map np.nonzero_from combine filter fst]. destruct (p k).
  - cbn [np.take]. rewrite nth_error_app2, Nat.sub_diag by lia.
    cbn [nth_error]. rewrite Htl. reflexivity.
  - exact Htl.
Qed.

Lemma filter_combine_fst {A B : Type} (p : A -> bool) (keys : list A)
    (vals : list B) :
  (length keys <= length vals)%nat ->
  map fst (filter (fun kv => p (fst kv)) (combine keys vals)) = filter p keys.
Proof.
  revert vals; induction keys as [|k ks IH]; intros vals Hlen; [reflexivity|].
  destruct vals as [|v vs]; [simpl in Hlen; lia|].
  cbn [combine filter fst]. destruct (p k); cbn [map fst]; rewrite IH;
    try reflexivity; simpl in Hlen; lia.
Qed.

Lemma filter_combine_self {A : Type} (p : A -> bool) (l : list A) :
  map snd (filter (fun kv => p (fst kv)) (combine l l)) = filter p l.
Proof.
  induction l as [|x l IH]; [reflexivity|].
  cbn [combine filter fst]. destruct (p x); cbn [map snd]; now rewrite IH.
Qed.

Lemma combine_append {A B : Type} (a a' : list A) (b b' : list B) :
  length a = length b ->
  combine (a ++ a') (b ++ b') = combine a b ++ combine a' b'.
Proof.
  revert b; induction a as [|x a IH]; intros [|y b] Hlen; try discriminate;
    [reflexivity|].
  simpl. f_equal. apply IH. simpl in Hlen. lia.
Qed.

Lemma combine_rev {A B : Type} (a : list A) (b : list B) :
  length a = length b -> combine (rev a) (rev b) = rev (combine a b).
Proof.
  revert b; induction a as [|x a IH]; intros [|y b] Hlen; try discriminate;
    [reflexivity|].
  simpl. rewrite <- IH by (simpl in Hlen; lia).
  rewrite combine_append by (rewrite !length_rev; simpl in Hlen; lia).
  reflexivity.
Qed.

Lemma combine_maps {A B C : Type} (f : A -> B) (g : A -> C) (l : list A) :
  combine (map f l) (map g l) = map (fun x => (f x, g x)) l.
Proof. induction l as [|x l IH]; [reflexivity|]. simpl. now rewrite IH. Qed.

(** What make_spect returns once scipy has answered and the grid has a row
    for every frequency. *)
Lemma make_spect_Ok (env : environment) (waveform : list Q) (sampfreq : Q)
    (size step : Z) (cutoffs : list Q)
    (freqs times : list Q) (grid : np.array2 Q) (lo hi : Q) (rest : list Q) :
  stft env waveform sampfreq size step = Ok (freqs, times, grid) ->
  cutoffs = lo :: hi :: rest ->
  (length freqs <= np.nrows grid)%nat ->
  make_spect env waveform sampfreq size step cutoffs
  = Ok (mk_song_spect
          (np.mk_array2
             (rev (map (map np.log10) (map snd (retained lo hi freqs grid))))
             (np.ncols grid))
          (rev (map fst (retained lo hi freqs grid)))
          times sampfreq).
Proof.
  intros Hstft -> Hrows. unfold make_spect. rewrite Hstft. cbn [bind py_index nth_error].
  unfold np.nonzero, np.take_rows.
  pose proof (take_masked (in_band lo hi) freqs freqs [] (le_n _)) as Hf.
  pose proof (take_masked (in_band lo hi) freqs (np.rows grid) [] Hrows) as Hg.
  cbn [app length] in Hf, Hg. rewrite Hf. cbn [bind]. rewrite Hg.
  cbn [bind]. unfold np.map2, np.flipud, retained. cbn [np.rows np.ncols].
  rewrite filter_combine_self, filter_combine_fst by exact Hrows.
  reflexivity.
Qed.

Lemma retained_freqs (lo hi : Q) (freqs : list Q) (grid : np.array2 Q) :
  (length freqs <= np.nrows grid)%nat ->
  map fst (retained lo hi freqs grid) = filter (in_band lo hi) freqs.
Proof. intro H. unfold retained. now apply filter_combine_fst. Qed.

Lemma StronglySorted_filter {A : Type} (R : A -> A -> Prop) (p : A -> bool)
    (l : list A) :
  StronglySorted R l -> StronglySorted R (filter p l).
Proof.
  induction 1 as [|x l Hs IH Hall]; simpl; [constructor|].
  destruct (p x); [|assumption]. constructor; [assumption|].
  rewrite Forall_forall in *. intros y Hy. apply Hall.
  now apply filter_In in Hy.
Qed.

Lemma StronglySorted_snoc {A : Type} (R : A -> A -> Prop) (l : list A) (x : A) :
  StronglySorted R l -> Forall (fun y => R y x) l -> StronglySorted R (l ++ [x]).
Proof.
  induction 1 as [|y l Hs IH Hall]; intro Hx; simpl.
  - repeat constructor.
  - inversion Hx; subst. constructor; [now apply IH|].
    apply Forall_app. split; [assumption | now constructor].
Qed.

Lemma StronglySorted_reverse {A : Type} (R : A -> A -> Prop) (l : list A) :
  StronglySorted R l -> StronglySorted (fun x y => R y x) (rev l).
Proof.
  induction 1 as [|x l Hs IH Hall]; simpl; [constructor|].
  apply StronglySorted_snoc; [assumption|].
  rewrite Forall_forall in *. intros y Hy. apply Hall. now apply in_rev.
Qed.

Lemma log10_zero (x : Q) : x == 0 -> np.log10 x = np.NegInf.
Proof.
  intro Hx. unfold np.log10.
  assert (Qltb 0 x = false) as ->.
  { apply not_true_iff_false. rewrite Qltb_true. intro H. rewrite Hx in H.
    now apply Qlt_irrefl in H. }
  now apply Qeq_bool_iff in Hx as ->.
Qed.

Lemma log10_negative (x : Q) : x < 0 -> np.log10 x = np.NaN.
Proof.
  intro Hx. unfold np.log10.
  assert (Qltb 0 x = false) as ->.
  { apply not_true_iff_false. rewrite Qltb_true. intro H.
    apply (Qlt_irrefl 0). now apply Qlt_trans with x. }
  assert (Qeq_bool x 0 = false) as ->; [|reflexivity].
  apply not_true_iff_false. rewrite Qeq_bool_iff. intro H. rewrite H in Hx.
  now apply Qlt_irrefl in Hx.
Qed.

Lemma retained_rows_aligned (lo hi : Q) (freqs : list Q) (grid : np.array2 Q) :
  let kept := retained lo hi freqs grid in
  combine (rev (map fst kept)) (rev (map (map np.log10) (map snd kept)))
  = rev (map (fun fr => (fst fr, map np.log10 (snd fr))) kept).
Proof.
  intro kept. rewrite combine_rev by now rewrite !length_map.
  now rewrite map_map, combine_maps.
Qed.

(** C9: once scipy has answered with a grid of one row per frequency and
    one column per time, make_spect returns the rows whose frequency [f]
    has [lo <= f < hi] and no others, with as many frequency bins as rows
    and as many time bins as columns. *)
Theorem make_spect_band_and_shape (env : environment) (waveform : list Q)
    (sampfreq : Q) (size step : Z) (cutoffs : list Q)
    (freqs times : list Q) (grid : np.array2 Q) (lo hi : Q) (rest : list Q) :
  stft env waveform sampfreq size step = Ok (freqs, times, grid) ->
  cutoffs = lo :: hi :: rest ->
  np.nrows grid = length freqs ->
  np.ncols grid = length times ->
  exists obj,
    make_spect env waveform sampfreq size step cutoffs = Ok obj /\
    combine (freqBins obj) (np.rows (spect obj))
      = rev (map (fun fr => (fst fr, map np.log10 (snd fr)))
                 (retained lo hi freqs grid)) /\
    (forall f, In f (freqBins obj) <-> In f freqs /\ lo <= f /\ f < hi) /\
    length (freqBins obj) = np.nrows (spect obj) /\
    length (timeBins obj) = np.ncols (spect obj).
Proof.
  intros Hstft Hcut Hrows Hcols.
  assert (length freqs <= np.nrows grid)%nat as Hle by lia.
  eexists. split; [exact (make_spect_Ok _ _ _ _ _ _ _ _ _ _ _ _ Hstft Hcut Hle)|].
  cbn [freqBins spect timeBins np.rows np.ncols]. unfold np.nrows. cbn [np.rows].
  split; [apply retained_rows_aligned|]. split; [|split].
  - intro f. rewrite <- in_rev, (retained_freqs _ _ _ _ Hle), filter_In.
    now rewrite in_band_true.
  - now rewrite !length_rev, !length_map.
  - now symmetry.
Qed.

Lemma make_spect_band_and_shape_witness :
  exists obj,
    make_spect (silent_recording 16 32000) (repeat 0 16) 32000 8 4
               [1000; 13000] = Ok obj /\
    combine (freqBins obj) (np.rows (spect obj))
      = rev (map (fun fr => (fst fr, map np.log10 (snd fr)))
                 (retained 1000 13000 [0; 4000; 8000; 12000; 16000]
                    (np.mk_array2 (repeat [0; 0; 0] 5) 3))) /\
    (forall f, In f (freqBins obj) <->
               In f [0; 4000; 8000; 12000; 16000] /\ 1000 <= f /\ f < 13000) /\
    length (freqBins obj) = np.nrows (spect obj) /\
    length (timeBins obj) = np.ncols (spect obj).
Proof.
  apply (make_spect_band_and_shape (silent_recording 16 32000) (repeat 0 16)
           32000 8 4 [1000; 13000] [0; 4000; 8000; 12000; 16000]
           [1 # 8000; 1 # 4000; 3 # 8000]
           (np.mk_array2 (repeat [0; 0; 0] 5) 3) 1000 13000 []).
  - vm_compute. reflexivity.
  - reflexivity.
  - reflexivity.
  - reflexivity.
Defined.

(** C2 (as the code has it): scipy's frequency axis being strictly
    increasing, the frequency bins make_spect returns are strictly
    decreasing, row 0 belongs to the highest retained frequency, and the
    grid and the axis are reversed together, so rows stay with their
    frequencies. *)
Theorem make_spect_freq_bins_decreasing (env : environment) (waveform : list Q)
    (sampfreq : Q) (size step : Z) (cutoffs : list Q)
    (freqs times : list Q) (grid : np.array2 Q) (lo hi : Q) (rest : list Q) :
  stft env waveform sampfreq size step = Ok (freqs, times, grid) ->
  cutoffs = lo :: hi :: rest ->
  np.nrows grid = length freqs ->
  StronglySorted Qlt freqs ->
  exists obj,
    make_spect env waveform sampfreq size step cutoffs = Ok obj /\
    StronglySorted (fun f g => g < f) (freqBins obj) /\
    (forall f, In f (freqBins obj) -> f <= nth 0 (freqBins obj) 0) /\
    combine (freqBins obj) (np.rows (spect obj))
      = rev (map (fun fr => (fst fr, map np.log10 (snd fr)))
                 (retained lo hi freqs grid)).
Proof.
  intros Hstft Hcut Hrows Hsorted.
  assert (length freqs <= np.nrows grid)%nat as Hle by lia.
  eexists. split; [exact (make_spect_Ok _ _ _ _ _ _ _ _ _ _ _ _ Hstft Hcut Hle)|].
  cbn [freqBins spect np.rows].
  assert (StronglySorted (fun f g => g < f)
            (rev (map fst (retained lo hi freqs grid)))) as Hdec.
  { rewrite (retained_freqs _ _ _ _ Hle).
    now apply StronglySorted_reverse, StronglySorted_filter. }
  split; [exact Hdec|]. split; [|apply retained_rows_aligned].
  intros f Hin. destruct (rev (map fst (retained lo hi freqs grid))) as [|b bs];
    [contradiction|].
  cbn [nth]. destruct Hin as [<-|Hin]; [apply Qle_refl|].
  apply StronglySorted_inv in Hdec. destruct Hdec as [_ Hall].
  rewrite Forall_forall in Hall. apply Qlt_le_weak. now apply Hall.
Qed.

Lemma make_spect_freq_bins_decreasing_witness :
  exists obj,
    make_spect (silent_recording 16 32000) (repeat 0 16) 32000 8 4
               [1000; 13000] = Ok obj /\
    StronglySorted (fun f g => g < f) (freqBins obj) /\
    (forall f, In f (freqBins obj) -> f <= nth 0 (freqBins obj) 0) /\
    combine (freqBins obj) (np.rows (spect obj))
      = rev (map (fun fr => (fst fr, map np.log10 (snd fr)))
                 (retained 1000 13000 [0; 4000; 8000; 12000; 16000]
                    (np.mk_array2 (repeat [0; 0; 0] 5) 3))).
Proof.
  apply (make_spect_freq_bins_decreasing (silent_recording 16 32000)
           (repeat 0 16) 32000 8 4 [1000; 13000] [0; 4000; 8000; 12000; 16000]
           [1 # 8000; 1 # 4000; 3 # 8000]
           (np.mk_array2 (repeat [0; 0; 0] 5) 3) 1000 13000 []).
  - vm_compute. reflexivity.
  - reflexivity.
  - reflexivity.
  - sorted_by_computation.
Defined.

(** C2 (counterexample): on a silent recording with cutoffs 1000 and 13000
    the returned axis is 12000, 8000, 4000: it is not increasing, and row 0
    is the highest retained frequency. *)
Lemma make_spect_freq_bins_not_increasing :
  exists obj,
    make_spect (silent_recording 16 32000) (repeat 0 16) 32000 8 4
               [1000; 13000] = Ok obj /\
    freqBins obj = [12000; 8000; 4000] /\
    ~ StronglySorted Qlt (freqBins obj).
Proof.
  eexists. split; [vm_compute; reflexivity|]. cbn [freqBins].
  split; [reflexivity|]. intro H. apply StronglySorted_inv in H.
  destruct H as [_ H]. inversion H; subst. discriminate.
Qed.

(** C5 (as the code has it): make_spect raises nothing on a power that is
    zero or negative; it returns the spectrogram, each entry being
    [np.log10] of the retained power: [-inf] for zero and [nan] for a
    negative power. *)
Theorem make_spect_nonpositive_power_returned (env : environment)
    (waveform : list Q) (sampfreq : Q) (size step : Z) (cutoffs : list Q)
    (freqs times : list Q) (grid : np.array2 Q) (lo hi : Q) (rest : list Q) :
  stft env waveform sampfreq size step = Ok (freqs, times, grid) ->
  cutoffs = lo :: hi :: rest ->
  np.nrows grid = length freqs ->
  exists obj,
    make_spect env waveform sampfreq size step cutoffs = Ok obj /\
    np.rows (spect obj)
      = rev (map (fun fr => map np.log10 (snd fr)) (retained lo hi freqs grid)) /\
    (forall x, x == 0 -> np.log10 x = np.NegInf) /\
    (forall x, x < 0 -> np.log10 x = np.NaN).
Proof.
  intros Hstft Hcut Hrows.
  assert (length freqs <= np.nrows grid)%nat as Hle by lia.
  eexists. split; [exact (make_spect_Ok _ _ _ _ _ _ _ _ _ _ _ _ Hstft Hcut Hle)|].
  cbn [spect np.rows]. split; [now rewrite map_map|].
  split; [exact log10_zero | exact log10_negative].
Qed.

Lemma make_spect_nonpositive_power_returned_witness :
  exists obj,
    make_spect (silent_recording 16 32000) (repeat 0 16) 32000 8 4
               [1000; 13000] = Ok obj /\
    np.rows (spect obj)
      = rev (map (fun fr => map np.log10 (snd fr))
                 (retained 1000 13000 [0; 4000; 8000; 12000; 16000]
                    (np.mk_array2 (repeat [0; 0; 0] 5) 3))) /\
    (forall x, x == 0 -> np.log10 x = np.NegInf) /\
    (forall x, x < 0 -> np.log10 x = np.NaN).
Proof.
  apply (make_spect_nonpositive_power_returned (silent_recording 16 32000)
           (repeat 0 16) 32000 8 4 [1000; 13000] [0; 4000; 8000; 12000; 16000]
           [1 # 8000; 1 # 4000; 3 # 8000]
           (np.mk_array2 (repeat [0; 0; 0] 5) 3) 1000 13000 []).
  - vm_compute. reflexivity.
  - reflexivity.
  - reflexivity.
Defined.

(** C5 (counterexample): every retained power of a silent recording is
    zero, and make_spect returns a spectrogram of [-inf] entries instead of
    failing. *)
Lemma make_spect_zero_power_no_error :
  exists freqs times grid obj,
    stft (silent_recording 16 32000) (repeat 0 16) 32000 8 4
      = Ok (freqs, times, grid) /\
    Forall (fun fr => Forall (fun x => x == 0) (snd fr))
           (retained 1000 13000 freqs grid) /\
    retained 1000 13000 freqs grid <> [] /\
    make_spect (silent_recording 16 32000) (repeat 0 16) 32000 8 4
               [1000; 13000] = Ok obj /\
    np.rows (spect obj) = repeat (repeat np.NegInf 3) 3.
Proof.
  do 4 eexists. split; [vm_compute; reflexivity|].
  split; [|split; [|split]].
  - vm_compute. repeat constructor.
  - vm_compute. discriminate.
  - vm_compute. reflexivity.
  - reflexivity.
Qed.

(** ** Centring and clamping *)

Lemma py_round_half (d : Z) :
  let l := py_round (inject_Z d / 2) in
  (-1 <= 2 * l - d <= 1)%Z /\ (Z.odd d = true -> Z.even l = true).
Proof.
  unfold py_round, Qcompare, Qfloor, Qminus, Qplus, Qopp, Qdiv, Qmult, Qinv,
    inject_Z.
  cbn [Qnum Qden]. rewrite !Z.mul_1_r.
  change (Z.pos (1 * 2 * 1)) with 2%Z. change (Z.pos (1 * 2)) with 2%Z.
  pose proof (Z.div_mod d 2 ltac:(lia)) as Hdiv.
  pose proof (Z.mod_pos_bound d 2 ltac:(lia)) as Hmod.
  set (f := (d / 2)%Z) in *.
  destruct (Z.compare_spec ((d + - f * 2) * 2) (1 * 2)) as [He|Hl|Hg].
  - destruct (Z.even f) eqn:Ef; split; try lia; intros _; [assumption|].
    now rewrite Z.add_1_r, Z.even_succ, <- Z.negb_even, Ef.
  - split; [lia|]. intro Hodd. replace d with (2 * f)%Z in Hodd by lia.
    now rewrite Z.odd_mul in Hodd.
  - lia.
Qed.

Lemma slice_length {A : Type} (l : list A) (start stop : Z) :
  length (np.slice l start stop) = np.slice_len (length l) start stop.
Proof.
  unfold np.slice, np.slice_len, np.slice_bound.
  rewrite length_firstn, length_skipn.
  destruct (Z.ltb_spec start 0), (Z.ltb_spec stop 0); lia.
Qed.

Lemma slice_len_inside (n : nat) (start stop : Z) :
  (0 <= start <= stop)%Z -> (stop <= Z.of_nat n)%Z ->
  np.slice_len n start stop = Z.to_nat (stop - start).
Proof.
  intros H1 H2. unfold np.slice_len, np.slice_bound.
  destruct (Z.ltb_spec start 0), (Z.ltb_spec stop 0); lia.
Qed.

(** ** The window around a segment *)

(** Every spectrogram the loop emits is the window of lines 186-201 around
    the bins of one of the segments. *)
Lemma extract_loop_emits (spect : np.array2 np.log_value)
    (onsets_time_bins offsets_time_bins : list nat)
    (labels_to_use : py_labels) (syl_spect_width : Z)
    (labels : list ascii) (ind : nat)
    (spects : list (np.array2 np.log_value)) (labs : list (option ascii)) :
  extract_loop spect onsets_time_bins offsets_time_bins labels_to_use
               syl_spect_width ind labels = Ok (spects, labs) ->
  Forall (fun s => exists i on off,
            nth_error onsets_time_bins i = Some on /\
            nth_error offsets_time_bins i = Some off /\
            s = syl_spect_of spect on off syl_spect_width) spects.
Proof.
  revert ind spects labs; induction labels as [|label rest IH];
    intros ind spects labs H.
  - inversion H; subst. constructor.
  - cbn [extract_loop] in H.
    assert (forall lab,
              (onset_bin <- py_index onsets_time_bins ind ;;
               offset_bin <- py_index offsets_time_bins ind ;;
               ' (all_syl_spects, all_syl_labels) <-
                 extract_loop spect onsets_time_bins offsets_time_bins
                   labels_to_use syl_spect_width (S ind) rest ;;
               Ok (syl_spect_of spect onset_bin offset_bin syl_spect_width
                     :: all_syl_spects, lab :: all_syl_labels))
              = Ok (spects, labs) ->
              Forall (fun s => exists i on off,
                        nth_error onsets_time_bins i = Some on /\
                        nth_error offsets_time_bins i = Some off /\
                        s = syl_spect_of spect on off syl_spect_width) spects)
      as Hemit.
    { intros lab He. bind_inv He. bind_inv He. bind_inv He.
      destruct v1 as [ss ls]. inversion He; subst.
      unfold py_index in E, E0.
      destruct (nth_error onsets_time_bins ind) eqn:Eon; [|discriminate].
      destruct (nth_error offsets_time_bins ind) eqn:Eoff; [|discriminate].
      inversion E; inversion E0; subst.
      constructor; [|now apply (IH _ _ _ E1)].
      exists ind, v, v0. now repeat split. }
    destruct (is_all labels_to_use); [now apply (Hemit None)|].
    destruct (py_contains labels_to_use label); cbn [negb] in H.
    + now apply (Hemit (Some label)).
    + now apply (IH _ _ _ H).
Qed.

Lemma slice_nth {A : Type} (l : list A) (start stop : Z) (j : nat) (d : A) :
  (0 <= start <= stop)%Z -> (stop <= Z.of_nat (length l))%Z ->
  (Z.of_nat j < stop - start)%Z ->
  nth j (np.slice l start stop) d = nth (Z.to_nat start + j) l d.
Proof.
  intros H1 H2 Hj. unfold np.slice, np.slice_bound.
  destruct (Z.ltb_spec start 0); [lia|]. destruct (Z.ltb_spec stop 0); [lia|].
  rewrite !Z.min_l by lia. rewrite nth_firstn, nth_skipn.
  destruct (Nat.ltb_spec j (Z.to_nat (stop - start))); [reflexivity | lia].
Qed.

(** C3: for a segment whose bins are in order and inside the spectrogram,
    [width_diff] is [syl_spect_width - (offset_bin - onset_bin)];
    [left_width] is [width_diff / 2] rounded to the nearest integer (to the
    even one on a tie) and [right_width] is the rest; at most one clamp is
    applied, the left one first; the emitted spectrogram is the slice
    [onset_bin - left_width : offset_bin + right_width] of the spectrogram
    with the widths the clamps leave; and when no clamp is applied it has
    all the rows and exactly [syl_spect_width] columns, which are the
    columns of the spectrogram from [onset_bin - left_width] on. *)
Theorem syl_spect_centred (spect : np.array2 np.log_value)
    (onset_bin offset_bin : nat) (syl_spect_width : Z) :
  (onset_bin <= offset_bin <= np.ncols spect)%nat ->
  (0 <= syl_spect_width)%Z ->
  Forall (fun r => length r = np.ncols spect) (np.rows spect) ->
  let on := Z.of_nat onset_bin in
  let off := Z.of_nat offset_bin in
  let columns := Z.of_nat (np.ncols spect) in
  let width_diff :=
    width_diff_of syl_spect_width (np.ncols (np.slice_cols spect on off)) in
  let left_width := fst (centre_widths width_diff) in
  let right_width := snd (centre_widths width_diff) in
  let clamped :=
    clamp_widths width_diff on off columns (left_width, right_width) in
  let emitted := syl_spect_of spect onset_bin offset_bin syl_spect_width in
  width_diff = (syl_spect_width - (off - on))%Z /\
  (-1 <= 2 * left_width - width_diff <= 1)%Z /\
  (Z.odd width_diff = true -> Z.even left_width = true) /\
  right_width = (width_diff - left_width)%Z /\
  clamped
    = (if (left_width >? on)%Z
       then (LeftClamp, (on, width_diff - on))
       else if (off + right_width >? columns)%Z
       then (RightClamp, (width_diff - (columns - off), columns - off))
       else (NoClamp, (left_width, right_width)))%Z /\
  emitted
    = np.slice_cols spect (on - fst (snd clamped)) (off + snd (snd clamped)) /\
  (fst clamped = NoClamp ->
   Z.of_nat (np.ncols emitted) = syl_spect_width /\
   np.nrows emitted = np.nrows spect /\
   Forall (fun r => Z.of_nat (length r) = syl_spect_width) (np.rows emitted) /\
   forall i j d,
     (i < np.nrows spect)%nat -> (Z.of_nat j < syl_spect_width)%Z ->
     nth j (nth i (np.rows emitted) []) d
     = nth (Z.to_nat (on - left_width) + j) (nth i (np.rows spect) []) d).
Proof.
  intros Hle HW Hrows on off columns width_diff left_width right_width
         clamped emitted.
  assert (width_diff = (syl_spect_width - (off - on))%Z) as Hwd.
  { unfold width_diff, width_diff_of. cbn [np.slice_cols np.ncols].
    rewrite slice_len_inside by (unfold on, off; lia). unfold on, off. lia. }
  destruct (py_round_half width_diff) as [Hnear Heven].
  change (py_round (inject_Z width_diff / 2)) with left_width in Hnear, Heven.
  assert (emitted
          = np.slice_cols spect (on - fst (snd clamped)) (off + snd (snd clamped)))
    as Hemitted.
  { unfold emitted, syl_spect_of. fold on off columns width_diff.
    rewrite (surjective_pairing (centre_widths width_diff)).
    fold left_width right_width. fold clamped.
    destruct clamped as [c [l r]]. reflexivity. }
  split; [exact Hwd|]. split; [exact Hnear|]. split; [exact Heven|].
  split; [reflexivity|]. split; [reflexivity|]. split; [exact Hemitted|].
  intro Hno. rewrite Hemitted. clear Hemitted. unfold clamped in *.
  unfold clamp_widths in Hno |- *.
  destruct (Z.gtb_spec left_width on) as [Hl|Hl]; [discriminate|].
  destruct (Z.gtb_spec (off + right_width) columns) as [Hr|Hr]; [discriminate|].
  assert (right_width = (width_diff - left_width)%Z) as Hrw by reflexivity.
  cbn [fst snd np.slice_cols np.ncols np.rows]. unfold np.nrows.
  cbn [np.rows].
  assert (np.slice_len (np.ncols spect) (on - left_width) (off + right_width)
          = Z.to_nat syl_spect_width) as Hlen.
  { rewrite slice_len_inside by (fold columns; lia). f_equal. lia. }
  split; [rewrite Hlen; lia|]. split; [apply length_map|]. split.
  - apply Forall_map. eapply Forall_impl; [|exact Hrows].
    intros r Hr'. cbv beta in Hr'. rewrite slice_length, Hr', Hlen. lia.
  - intros i j d Hi Hj.
    rewrite (nth_indep _ [] (np.slice [] (on - left_width) (off + right_width)))
      by now rewrite length_map.
    rewrite (map_nth (fun r => np.slice r (on - left_width) (off + right_width))).
    assert (length (nth i (np.rows spect) []) = np.ncols spect) as Hrow.
    { rewrite Forall_forall in Hrows. now apply Hrows, nth_In. }
    apply slice_nth; rewrite ?Hrow; fold columns; lia.
Qed.

Lemma syl_spect_centred_witness :
  let spect :=
    np.mk_array2
      [map (fun k => np.Log10 (inject_Z (Z.of_nat k + 1))) (seq 0 30);
       map (fun k => np.Log10 (inject_Z (Z.of_nat k + 101))) (seq 0 30)] 30 in
  let emitted := syl_spect_of spect 12 16 20 in
  width_diff_of 20 (np.ncols (np.slice_cols spect 12 16)) = (20 - (16 - 12))%Z /\
  emitted = np.slice_cols spect (12 - 8) (16 + 8) /\
  Z.of_nat (np.ncols emitted) = 20%Z /\
  np.nrows emitted = 2%nat /\
  nth 0 (nth 1 (np.rows emitted) []) np.NaN = np.Log10 105.
Proof.
  intros spect emitted.
  destruct (syl_spect_centred spect 12 16 20)
    as (Hwd & _ & _ & _ & _ & Hemitted & Hwindow).
  - simpl. lia.
  - lia.
  - vm_compute. repeat constructor.
  - destruct Hwindow as (Hcols & Hnrows & _ & Hentries); [reflexivity|].
    split; [exact Hwd|]. split; [exact Hemitted|]. split; [exact Hcols|].
    split; [exact Hnrows|]. unfold emitted.
    rewrite (Hentries 1%nat 0%nat np.NaN);
      [reflexivity | unfold np.nrows, spect; simpl; lia | lia].
Defined.

(** ** extract_syls *)


Lemma prepare_labels_Ok (v : py_labels) :
  exists v', prepare_labels v = Ok v' /\
             is_all v' = is_all v /\
             forall c, py_contains v' c = py_contains v c.
Proof.
  destruct v as [s|l]; unfold prepare_labels.
  - destruct (is_all (PyStr s)) eqn:Hall; cbn [negb].
    + exists (PyStr s). repeat split. exact Hall.
    + exists (PyList (list_ascii_of_string s)). repeat split.
  - exists (PyList l). repeat split.
Qed.

Lemma mapM_Ok {A B : Type} (f : A -> result B) (l : list A) :
  (forall x, exists y, f x = Ok y) ->
  exists ys, mapM f l = Ok ys /\ length ys = length l.
Proof.
  intro Hf. induction l as [|x l (ys & IH & Hlen)].
  - exists []. now split.
  - destruct (Hf x) as (y & Hy). exists (y :: ys). cbn [mapM].
    rewrite Hy, IH. cbn [bind]. split; [reflexivity | simpl; now f_equal].
Qed.

Lemma nearest_bin_Ok (time_bins : list Q) (t : Q) :
  time_bins <> [] -> exists i, nearest_bin time_bins t = Ok i.
Proof.
  intro Hne. unfold nearest_bin. destruct time_bins as [|b bs]; [contradiction|].
  cbn [map np.argmin]. eauto.
Qed.

Lemma py_index_Ok {A : Type} (a : list A) (i : nat) :
  (i < length a)%nat -> exists x, py_index a i = Ok x.
Proof.
  intro Hi. unfold py_index. destruct (nth_error a i) eqn:E; [eauto|].
  apply nth_error_None in E. lia.
Qed.

Lemma extract_loop_Ok (spect : np.array2 np.log_value)
    (onsets_time_bins offsets_time_bins : list nat)
    (labels_to_use : py_labels) (syl_spect_width : Z)
    (labels : list ascii) (ind : nat) :
  (ind + length labels <= length onsets_time_bins)%nat ->
  (ind + length labels <= length offsets_time_bins)%nat ->
  exists spects,
    extract_loop spect onsets_time_bins offsets_time_bins labels_to_use
                 syl_spect_width ind labels
      = Ok (spects, selected_labels labels_to_use labels) /\
    length spects = length (selected_labels labels_to_use labels).
Proof.
  revert ind; induction labels as [|label rest IH]; intros ind Hon Hoff.
  - exists []. unfold selected_labels. destruct (is_all labels_to_use); now split.
  - cbn [length] in Hon, Hoff.
    destruct (IH (S ind)) as (spects & Hrest & Hlen); [lia | lia |].
    destruct (py_index_Ok onsets_time_bins ind) as (on & Hi); [lia|].
    destruct (py_index_Ok offsets_time_bins ind) as (off & Hj); [lia|].
    cbn [extract_loop]. unfold selected_labels in *.
    destruct (is_all labels_to_use).
    + rewrite Hi, Hj, Hrest. cbn [bind map]. eexists. split; [reflexivity|].
      simpl. now f_equal.
    + cbn [filter]. destruct (py_contains labels_to_use label); cbn [negb].
      * rewrite Hi, Hj, Hrest. cbn [bind map]. eexists. split; [reflexivity|].
        simpl. now f_equal.
      * exists spects. now split.
Qed.

Lemma mapM_Forall2 {A B C : Type} (f : B -> result C) (g : A -> B)
    (l : list A) (ys : list C) :
  mapM f (map g l) = Ok ys -> Forall2 (fun x y => f (g x) = Ok y) l ys.
Proof.
  revert ys; induction l as [|x l IH]; intros ys H; cbn [map mapM] in H.
  - inversion H. constructor.
  - bind_inv H. bind_inv H. inversion H; subst. constructor; auto.
Qed.

(** The loop of lines 181-203 over bins that cover every label. *)
Lemma extract_loop_windows (spect : np.array2 np.log_value)
    (labels_to_use : py_labels) (syl_spect_width : Z)
    (labels : list ascii) (bins_of : list (nat * nat))
    (before_on before_off : list nat) :
  length bins_of = length labels ->
  length before_on = length before_off ->
  let out := segment_windows spect syl_spect_width labels_to_use
               (combine labels bins_of) in
  extract_loop spect (before_on ++ map fst bins_of)
               (before_off ++ map snd bins_of)
               labels_to_use syl_spect_width (length before_on) labels
  = Ok (map fst out, map snd out).
Proof.
  revert bins_of before_on before_off;
    induction labels as [|label rest IH];
    intros bins_of before_on before_off Hlen Hbefore; cbn zeta.
  - destruct bins_of; [reflexivity | discriminate].
  - destruct bins_of as [|[on off] bins_of]; [discriminate|].
    specialize (IH bins_of (before_on ++ [on]) (before_off ++ [off])).
    cbn zeta in IH. rewrite <- !app_assoc in IH. cbn [app] in IH.
    rewrite length_app, Nat.add_1_r in IH.
    assert (length bins_of = length rest) as Hrest by (simpl in Hlen; lia).
    assert (S (length before_on) = length (before_off ++ [off])) as Hb
      by (rewrite length_app; simpl; lia).
    specialize (IH Hrest Hb).
    cbn [extract_loop map fst snd combine]. unfold py_index.
    rewrite !nth_error_app2 by lia.
    rewrite <- Hbefore, Nat.sub_diag. cbn [nth_error bind]. rewrite IH.
    unfold segment_windows. cbn [flat_map fst snd].
    destruct (is_all labels_to_use); cbn [bind app map fst snd];
      [reflexivity|].
    destruct (py_contains labels_to_use label); cbn [negb bind app map fst snd];
      reflexivity.
Qed.

Lemma segment_windows_labels (spect : np.array2 np.log_value)
    (syl_spect_width : Z) (labels_to_use : py_labels)
    (labels : list ascii) (bins_of : list (nat * nat)) :
  length bins_of = length labels ->
  map snd (segment_windows spect syl_spect_width labels_to_use
             (combine labels bins_of))
  = (if is_all labels_to_use then map (fun _ => None) labels
     else map Some (filter (py_contains labels_to_use) labels)).
Proof.
  revert bins_of; induction labels as [|label rest IH];
    intros [|[on off] bins_of] Hlen; try discriminate.
  - now destruct (is_all labels_to_use).
  - specialize (IH bins_of ltac:(simpl in Hlen; lia)).
    unfold segment_windows in *. cbn [combine flat_map fst snd].
    rewrite map_app, IH.
    destruct (is_all labels_to_use); [reflexivity|]. cbn [filter].
    now destruct (py_contains labels_to_use label).
Qed.

Lemma segment_windows_ext (spect : np.array2 np.log_value)
    (syl_spect_width : Z) (v v' : py_labels)
    (segments : list (ascii * (nat * nat))) :
  is_all v = is_all v' ->
  (forall c, py_contains v c = py_contains v' c) ->
  segment_windows spect syl_spect_width v segments
  = segment_windows spect syl_spect_width v' segments.
Proof.
  intros Hall Hin. unfold segment_windows. apply flat_map_ext.
  intro segment. now rewrite Hall, Hin.
Qed.

(** C8: when the recording loads at the expected rate, the spectrogram is
    computed and has time bins, and the label file gives one onset and one
    offset per label, then the bin lookups of lines 176-179 succeed and
    extract_syls returns, in segment order, exactly the window of every
    segment that passes the label test, around that segment's own bins:
    with 'all' every segment passes and is reported with label [None];
    otherwise a segment passes if and only if its label is in
    [labels_to_use], and is reported with its label. *)
Theorem extract_syls_label_selection (env : environment) (cbin : string)
    (params : spect_params) (labels_to_use : py_labels) (syl_spect_width : Z)
    (dat : list Q) (fs : Q) (obj : song_spect) (nm : notmat) :
  load_cbin env cbin = Ok (dat, fs) ->
  fs == samp_freq params ->
  make_spect env dat fs (window_size params) (window_step params)
             (freq_cutoffs params) = Ok obj ->
  timeBins obj <> [] ->
  load_notmat env cbin = Ok nm ->
  length (nm_onsets nm) = length (list_ascii_of_string (nm_labels nm)) ->
  length (nm_offsets nm) = length (list_ascii_of_string (nm_labels nm)) ->
  let labels := list_ascii_of_string (nm_labels nm) in
  exists onset_bins offset_bins,
    Forall2 (fun t b => nearest_bin (timeBins obj) (t / 1000) = Ok b)
            (nm_onsets nm) onset_bins /\
    Forall2 (fun t b => nearest_bin (timeBins obj) (t / 1000) = Ok b)
            (nm_offsets nm) offset_bins /\
    let out :=
      segment_windows (spect obj) syl_spect_width labels_to_use
        (combine labels (combine onset_bins offset_bins)) in
    extract_syls env cbin params labels_to_use syl_spect_width
      = Ok (map fst out, map snd out) /\
    map snd out
      = (if is_all labels_to_use then map (fun _ => None) labels
         else map Some (filter (py_contains labels_to_use) labels)) /\
    length (map fst out)
      = (if is_all labels_to_use then length labels
         else length (filter (py_contains labels_to_use) labels)).
Proof.
  intros Hcbin Hfs Hspect Hbins Hnm Hon Hoff labels.
  destruct (prepare_labels_Ok labels_to_use) as (v & Hv & Hall & Hin).
  destruct (mapM_Ok (nearest_bin (timeBins obj))
              (map (fun t => t / 1000) (nm_onsets nm))) as (onb & Eon & Lon).
  { intro t. now apply nearest_bin_Ok. }
  destruct (mapM_Ok (nearest_bin (timeBins obj))
              (map (fun t => t / 1000) (nm_offsets nm))) as (offb & Eoff & Loff).
  { intro t. now apply nearest_bin_Ok. }
  rewrite length_map in Lon, Loff. fold labels in Hon, Hoff.
  exists onb, offb.
  split; [exact (mapM_Forall2 _ _ _ _ Eon)|].
  split; [exact (mapM_Forall2 _ _ _ _ Eoff)|].
  assert (length (combine onb offb) = length labels) as Hbl
    by (rewrite length_combine; lia).
  cbn zeta. split; [|split].
  - unfold extract_syls. rewrite Hv. cbn [bind]. unfold extract_prepared.
    rewrite Hcbin. cbn [bind].
    apply Qeq_bool_iff in Hfs. rewrite Hfs. cbn [negb].
    rewrite Hspect. cbn [bind]. rewrite Hnm. cbn [bind].
    rewrite Eon. cbn [bind]. rewrite Eoff. cbn [bind]. fold labels.
    pose proof (extract_loop_windows (spect obj) v syl_spect_width labels
                  (combine onb offb) [] [] Hbl eq_refl) as Hloop.
    cbn zeta in Hloop. cbn [app length] in Hloop.
    assert (map fst (combine onb offb) = onb) as Hfst.
    { clear -Lon Loff Hon Hoff. assert (length onb = length offb) as H by lia.
      clear -H. revert offb H; induction onb as [|x onb IH];
        intros [|y offb] H; try discriminate; [reflexivity|].
      simpl. f_equal. apply IH. simpl in H. lia. }
    assert (map snd (combine onb offb) = offb) as Hsnd.
    { clear -Lon Loff Hon Hoff. assert (length onb = length offb) as H by lia.
      clear -H. revert offb H; induction onb as [|x onb IH];
        intros [|y offb] H; try discriminate; [reflexivity|].
      simpl. f_equal. apply IH. simpl in H. lia. }
    rewrite Hfst, Hsnd in Hloop. rewrite Hloop.
    now rewrite (segment_windows_ext _ _ v labels_to_use).
  - now apply segment_windows_labels.
  - rewrite length_map, <- (length_map snd), segment_windows_labels by assumption.
    destruct (is_all labels_to_use); now rewrite length_map.
Qed.

Lemma extract_syls_label_selection_witness :
  let env :=
    mk_environment (slepian (silent_recording 16 32000))
      (fun _ _ _ _ _ =>
         Ok ([0; 4000; 8000], bins 12,
             np.mk_array2
               [[0; 0; 0; 0; 0; 0; 0; 0; 0; 0; 0; 0];
                [1; 2; 3; 4; 5; 6; 7; 8; 9; 10; 11; 12];
                [101; 102; 103; 104; 105; 106; 107; 108; 109; 110; 111; 112]]
               12))
      (load_cbin (silent_recording 16 32000))
      (load_notmat (silent_recording 16 32000)) in
  extract_syls env "bird.cbin" demo_params (PyStr "ab") 4
  = Ok ([np.mk_array2
           [[np.Log10 101; np.Log10 102; np.Log10 103; np.Log10 104];
            [np.Log10 1; np.Log10 2; np.Log10 3; np.Log10 4]] 4;
         np.mk_array2
           [[np.Log10 108; np.Log10 109; np.Log10 110; np.Log10 111];
            [np.Log10 8; np.Log10 9; np.Log10 10; np.Log10 11]] 4],
        [Some "a"%char; Some "b"%char]).
Proof.
  intro env.
  destruct (make_spect env (repeat 0 16) 32000 8 4 [1000; 13000])
    as [obj|e] eqn:Hobj; [|vm_compute in Hobj; discriminate].
  destruct (extract_syls_label_selection env "bird.cbin" demo_params
              (PyStr "ab") 4 (repeat 0 16) 32000 obj
              (mk_notmat "axb" [1; 5; 9] [2; 6; 10]))
    as (onb & offb & Hon & Hoff & Hout & _).
  - reflexivity.
  - reflexivity.
  - exact Hobj.
  - vm_compute in Hobj. inversion Hobj; subst. discriminate.
  - reflexivity.
  - reflexivity.
  - reflexivity.
  - vm_compute in Hobj. inversion Hobj; subst obj; clear Hobj.
    cbn [timeBins nm_onsets nm_offsets] in Hon, Hoff.
    assert (onb = [1; 5; 9]%nat) as ->.
    { inversion Hon as [|t1 b1 l1 r1 H1 T1]; subst.
      inversion T1 as [|t2 b2 l2 r2 H2 T2]; subst.
      inversion T2 as [|t3 b3 l3 r3 H3 T3]; subst. inversion T3; subst.
      vm_compute in H1, H2, H3. inversion H1; inversion H2; inversion H3.
      reflexivity. }
    assert (offb = [2; 6; 10]%nat) as ->.
    { inversion Hoff as [|t1 b1 l1 r1 H1 T1]; subst.
      inversion T1 as [|t2 b2 l2 r2 H2 T2]; subst.
      inversion T2 as [|t3 b3 l3 r3 H3 T3]; subst. inversion T3; subst.
      vm_compute in H1, H2, H3. inversion H1; inversion H2; inversion H3.
      reflexivity. }
    rewrite Hout. vm_compute. reflexivity.
Defined.

(** C7: when the recording's actual rate differs from
    [spect_params['samp_freq']], extract_syls raises the ValueError of the
    rate check, whatever the window, spectrogram and label collaborators
    would have done: nothing is computed and nothing is returned. *)
Theorem extract_syls_sample_rate_mismatch (env : environment) (cbin : string)
    (params : spect_params) (labels_to_use : py_labels) (syl_spect_width : Z)
    (dat : list Q) (fs : Q) :
  load_cbin env cbin = Ok (dat, fs) ->
  ~ fs == samp_freq params ->
  forall slepian' spectrogram' load_notmat',
    extract_syls
      (mk_environment slepian' spectrogram' (load_cbin env) load_notmat')
      cbin params labels_to_use syl_spect_width
    = Err (ValueError
             "Sampling frequency does not match expected sampling frequency").
Proof.
  intros Hcbin Hfs slepian' spectrogram' load_notmat'.
  destruct (prepare_labels_Ok labels_to_use) as (v & Hv & _).
  unfold extract_syls. rewrite Hv. cbn [bind]. unfold extract_prepared.
  cbn [load_cbin]. rewrite Hcbin. cbn [bind].
  assert (Qeq_bool fs (samp_freq params) = false) as ->; [|reflexivity].
  apply not_true_iff_false. now rewrite Qeq_bool_iff.
Qed.

Lemma extract_syls_sample_rate_mismatch_witness :
  extract_syls (silent_recording 408 44100) "bird.cbin" demo_params
               (PyStr "all") 300
  = Err (ValueError
           "Sampling frequency does not match expected sampling frequency").
Proof.
  apply (extract_syls_sample_rate_mismatch (silent_recording 408 44100)
           "bird.cbin" demo_params (PyStr "all") 300 (repeat 0 408) 44100).
  - reflexivity.
  - discriminate.
Defined.


(** * Further properties of the module *)

(** ** segment_song: which bins are onsets and offsets *)

Lemma nth_map_in_range {A B : Type} (f : A -> B) (l : list A) (d : A) (d' : B)
    (i : nat) :
  (i < length l)%nat -> nth i (map f l) d' = f (nth i l d).
Proof.
  intro Hi. rewrite (nth_indep _ d' (f d)) by now rewrite length_map.
  apply map_nth.
Qed.

Lemma nonzero_from_In (k : nat) (m : list bool) (i : nat) :
  In i (np.nonzero_from k m) <->
  (k <= i < k + length m)%nat /\ nth (i - k) m false = true.
Proof.
  split.
  - intro Hin. split; [|now apply nonzero_from_true].
    pose proof (nonzero_from_bounds k m) as Hb. rewrite Forall_forall in Hb.
    now apply Hb.
  - revert k; induction m as [|b m IH]; intros k [Hr Ht]; [simpl in Hr; lia|].
    destruct (Nat.eq_dec i k) as [->|Hne].
    + rewrite Nat.sub_diag in Ht. simpl in Ht. subst b. now left.
    + assert (In i (np.nonzero_from (S k) m)) as Hin.
      { apply IH. split; [simpl in Hr; lia|].
        replace (i - k)%nat with (S (i - S k)) in Ht by lia. exact Ht. }
      simpl. destruct b; [now right | assumption].
Qed.

Lemma nonzero_In (m : list bool) (i : nat) :
  In i (np.nonzero m) <-> (i < length m)%nat /\ nth i m false = true.
Proof.
  unfold np.nonzero. rewrite nonzero_from_In, Nat.sub_0_r.
  split; intros [H1 H2]; (split; [lia | assumption]).
Qed.

Lemma diffs_nth (v : list Z) (prev : Z) (i : nat) :
  (i <= length v)%nat ->
  nth i (diffs prev v) 0%Z
  = (nth i v 0 - match i with O => prev | S j => nth j v 0 end)%Z.
Proof.
  revert prev i; induction v as [|y r IH]; intros prev i Hi.
  - destruct i; [reflexivity | simpl in Hi; lia].
  - destruct i as [|j]; [reflexivity|]. cbn [diffs nth].
    rewrite IH by (simpl in Hi; lia). now destruct j.
Qed.

Lemma above_nth (amp : list Q) (threshold : Q) (k : nat) :
  nth k (map (fun a => Qgtb a threshold) amp) false = true <->
  above amp threshold k.
Proof.
  unfold above. destruct (Nat.lt_ge_cases k (length amp)) as [Hk|Hk].
  - rewrite (nth_map_in_range _ _ 0) by assumption. rewrite Qgtb_true.
    split; [now split | now intros [_ H]].
  - rewrite nth_overflow by now rewrite length_map.
    split; [discriminate | intros [H _]; lia].
Qed.

Lemma rising_position (bs : list bool) (k : nat) :
  In k (rising_from false 0 bs) <->
  nth k bs false = true /\
  match k with O => True | S j => nth j bs false = false end.
Proof.
  pose proof (rising_of_diffs bs false 0) as <-. cbn [Z_of_bool].
  change (np.nonzero_from 0) with np.nonzero.
  rewrite nonzero_In, length_map, diffs_length, length_map. split.
  - intros [Hk Ht]. rewrite (nth_map_in_range _ _ 0%Z) in Ht
      by (rewrite diffs_length, length_map; lia).
    rewrite diffs_nth in Ht by (rewrite length_map; lia).
    change 0%Z with (Z_of_bool false) in Ht at 1.
    rewrite (map_nth Z_of_bool) in Ht.
    destruct k as [|j].
    + destruct (nth 0 bs false); [now split | discriminate].
    + change 0%Z with (Z_of_bool false) in Ht at 1.
      rewrite (map_nth Z_of_bool) in Ht.
      destruct (nth (S j) bs false), (nth j bs false); try discriminate.
      now split.
  - intros [Ht Hp].
    assert (k < length bs)%nat as Hk.
    { destruct (Nat.lt_ge_cases k (length bs)) as [|Hge]; [assumption|].
      rewrite nth_overflow in Ht by assumption. discriminate. }
    split; [lia|].
    rewrite (nth_map_in_range _ _ 0%Z) by (rewrite diffs_length, length_map; lia).
    rewrite diffs_nth by (rewrite length_map; lia).
    change 0%Z with (Z_of_bool false) at 1. rewrite (map_nth Z_of_bool), Ht.
    destruct k as [|j]; [reflexivity|].
    change 0%Z with (Z_of_bool false) at 1. now rewrite (map_nth Z_of_bool), Hp.
Qed.

Lemma falling_position (bs : list bool) (k : nat) :
  In k (falling_from false 0 bs) <->
  nth k bs false = false /\
  match k with O => False | S j => nth j bs false = true end.
Proof.
  pose proof (falling_of_diffs bs false 0) as <-. cbn [Z_of_bool].
  change (np.nonzero_from 0) with np.nonzero.
  rewrite nonzero_In, length_map, diffs_length, length_map. split.
  - intros [Hk Ht]. rewrite (nth_map_in_range _ _ 0%Z) in Ht
      by (rewrite diffs_length, length_map; lia).
    rewrite diffs_nth in Ht by (rewrite length_map; lia).
    change 0%Z with (Z_of_bool false) in Ht at 1.
    rewrite (map_nth Z_of_bool) in Ht.
    destruct k as [|j].
    + destruct (nth 0 bs false); discriminate.
    + change 0%Z with (Z_of_bool false) in Ht at 1.
      rewrite (map_nth Z_of_bool) in Ht.
      destruct (nth (S j) bs false), (nth j bs false); try discriminate.
      now split.
  - intros [Ht Hp]. destruct k as [|j]; [contradiction|].
    assert (j < length bs)%nat as Hj.
    { destruct (Nat.lt_ge_cases j (length bs)) as [|Hge]; [assumption|].
      rewrite nth_overflow in Hp by assumption. discriminate. }
    split; [lia|].
    rewrite (nth_map_in_range _ _ 0%Z) by (rewrite diffs_length, length_map; lia).
    rewrite diffs_nth by (rewrite length_map; lia).
    change 0%Z with (Z_of_bool false) at 1. rewrite (map_nth Z_of_bool), Ht.
    change 0%Z with (Z_of_bool false) at 1. now rewrite (map_nth Z_of_bool), Hp.
Qed.

Lemma pick_In (a : list Q) (idx : list nat) (t : Q) :
  In t (pick a idx) <-> exists k, In k idx /\ nth k a 0 = t.
Proof.
  unfold pick. rewrite in_map_iff. split; intros (k & H1 & H2); eauto.
Qed.

(** X1: the onsets threshold_crossings returns are the times of the bins
    where the amplitude is above the threshold and the bin before is not
    (bin 0 has none before it, so a recording that starts loud has an onset
    at bin 0); the offsets are the times of the bins that are not above the
    threshold while the bin before is, one past the last bin included. *)
Theorem threshold_crossings_positions (amp time_bins : list Q) (threshold : Q)
    (onsets offsets : list Q) :
  threshold_crossings amp time_bins threshold = Ok (onsets, offsets) ->
  (forall t, In t onsets <->
     exists k, nth k time_bins 0 = t /\ above amp threshold k /\
               match k with O => True | S j => ~ above amp threshold j end) /\
  (forall t, In t offsets <->
     exists k, nth k time_bins 0 = t /\ ~ above amp threshold k /\
               match k with O => False | S j => above amp threshold j end).
Proof.
  intro H. apply crossings_edges in H. destruct H as (-> & -> & _ & _).
  split; intro t; rewrite pick_In.
  - split; intros (k & Hk & Ht); exists k.
    + apply rising_position in Hk. destruct Hk as [H1 H2].
      split; [assumption|]. split; [now apply above_nth|].
      destruct k; [exact I|]. rewrite <- above_nth. congruence.
    + destruct Ht as (Ha & Hp). split; [|assumption].
      apply rising_position. split; [now apply above_nth|].
      destruct k; [exact I|]. rewrite <- above_nth in Hp.
      now apply not_true_is_false.
  - split; intros (k & Hk & Ht); exists k.
    + apply falling_position in Hk. destruct Hk as [H1 H2].
      split; [assumption|]. split; [rewrite <- above_nth; congruence|].
      destruct k; [contradiction | now apply above_nth].
    + destruct Ht as (Ha & Hp). split; [|assumption].
      apply falling_position. split.
      * rewrite <- above_nth in Ha. now apply not_true_is_false.
      * destruct k; [contradiction | now apply above_nth].
Qed.

Lemma threshold_crossings_positions_witness :
  (forall t, In t [ms 0; ms 3] <->
     exists k, nth k (bins 6) 0 = t /\ above [9; 9; 0; 9; 0] 5 k /\
               match k with O => True | S j => ~ above [9; 9; 0; 9; 0] 5 j end) /\
  (forall t, In t [ms 2; ms 4] <->
     exists k, nth k (bins 6) 0 = t /\ ~ above [9; 9; 0; 9; 0] 5 k /\
               match k with O => False | S j => above [9; 9; 0; 9; 0] 5 j end).
Proof.
  apply (threshold_crossings_positions [9; 9; 0; 9; 0] (bins 6) 5).
  vm_compute. reflexivity.
Defined.

(** ** segment_song: when it returns *)


Lemma crossings_Ok (amp time_bins : list Q) (threshold : Q) :
  amp <> [] ->
  let bs := map (fun a => Qgtb a threshold) amp in
  Forall (fun i => (i < length time_bins)%nat) (rising_from false 0 bs) ->
  Forall (fun i => (i < length time_bins)%nat) (falling_from false 0 bs) ->
  threshold_crossings amp time_bins threshold
  = Ok (pick time_bins (rising_from false 0 bs),
        pick time_bins (falling_from false 0 bs)).
Proof.
  intros Hne bs HR HF. unfold threshold_crossings. fold bs.
  destruct amp as [|a r]; [contradiction|].
  replace (np.convolve [1%Z; (-1)%Z] (map Z_of_bool bs))
    with (Ok (diffs 0 (map Z_of_bool bs)))
    by (unfold bs; cbn [map]; now rewrite convolve_diffs).
  cbn [bind]. unfold np.nonzero.
  pose proof (rising_of_diffs bs false 0) as Hrise.
  pose proof (falling_of_diffs bs false 0) as Hfall.
  cbn [Z_of_bool] in Hrise, Hfall. rewrite Hrise, Hfall.
  rewrite (take_in_range time_bins 0 _ HR). cbn [bind].
  rewrite (take_in_range time_bins 0 _ HF). reflexivity.
Qed.

Lemma crossings_same_length (amp time_bins : list Q) (threshold : Q)
    (O F : list Q) :
  threshold_crossings amp time_bins threshold = Ok (O, F) ->
  length O = length F.
Proof.
  intro H. apply crossings_edges in H. destruct H as (-> & -> & _).
  rewrite !pick_length. apply edges_of_song.
Qed.

(** Once the crossings are found, the two filtering steps cannot fail. *)
Lemma filters_Ok (O F : list Q) (min_syl_dur min_silent_dur : Q) :
  length O = length F ->
  exists on off,
    ('(onsets, offsets) <- drop_short_gaps O F min_silent_dur ;;
     drop_short_syllables onsets offsets min_syl_dur) = Ok (on, off) /\
    (length on <= length O - 1)%nat.
Proof.
  intro Hlen. rewrite (drop_short_gaps_kept O F _ Hlen). cbn [bind].
  rewrite drop_short_syllables_kept by now rewrite !pick_length.
  do 2 eexists. split; [reflexivity|]. rewrite pick_length.
  etransitivity; [apply nonzero_from_length|].
  rewrite length_map, sub_same_length by now rewrite !pick_length.
  rewrite pick_length. etransitivity; [apply nonzero_from_length|].
  rewrite length_map, sub_same_length, tl_length
    by (rewrite tl_length, removelast_length; now f_equal).
  lia.
Qed.




Lemma quiet_edges (bs : list bool) (k : nat) :
  Forall (fun b => b = false) bs ->
  rising_from false k bs = [] /\ falling_from false k bs = [].
Proof.
  intro H. revert k. induction H as [|b r Hb Hr IH]; intro k; [now split|].
  subst b. cbn [rising_from falling_from andb negb]. apply IH.
Qed.

(** X3: an amplitude array that never exceeds the threshold has no
    segments: segment_song returns two empty arrays, whatever the time bins
    are. *)
Theorem segment_song_below_threshold (amp time_bins : list Q)
    (threshold min_syl_dur min_silent_dur : Q) :
  amp <> [] ->
  Forall (fun a => a <= threshold) amp ->
  segment_song amp time_bins threshold min_syl_dur min_silent_dur = Ok ([], []).
Proof.
  intros Hne Hlow.
  assert (Forall (fun b => b = false) (map (fun a => Qgtb a threshold) amp)) as Hq.
  { apply Forall_map. eapply Forall_impl; [|exact Hlow].
    intros a Ha. apply not_true_is_false. rewrite Qgtb_true.
    now apply Qle_not_lt. }
  destruct (quiet_edges _ 0 Hq) as [HR HF].
  unfold segment_song. rewrite crossings_Ok; try assumption.
  - rewrite HR, HF. reflexivity.
  - rewrite HR. constructor.
  - rewrite HF. constructor.
Qed.

Lemma segment_song_below_threshold_witness :
  segment_song [0; 4000; 5000] [] 5000 (ms 20) (ms 2) = Ok ([], []).
Proof.
  apply (segment_song_below_threshold [0; 4000; 5000] [] 5000 (ms 20) (ms 2)).
  - discriminate.
  - repeat constructor; discriminate.
Defined.

(** X4: segment_song returns fewer segments than there are runs above the
    threshold, as soon as there is one: the last run is never returned, so
    a recording with a single run yields nothing. *)
Theorem segment_song_fewer_than_runs (amp time_bins : list Q)
    (threshold min_syl_dur min_silent_dur : Q)
    (raw_onsets raw_offsets onsets offsets : list Q) :
  threshold_crossings amp time_bins threshold = Ok (raw_onsets, raw_offsets) ->
  raw_onsets <> [] ->
  segment_song amp time_bins threshold min_syl_dur min_silent_dur
    = Ok (onsets, offsets) ->
  (length onsets < length raw_onsets)%nat /\
  (length offsets < length raw_offsets)%nat.
Proof.
  intros Hraw Hne H. unfold segment_song in H. rewrite Hraw in H. cbn [bind] in H.
  pose proof (crossings_same_length _ _ _ _ _ Hraw) as Hlen.
  destruct (filters_Ok raw_onsets raw_offsets min_syl_dur min_silent_dur Hlen)
    as (on & off & Hf & Hle).
  rewrite Hf in H. inversion H; subst.
  assert (length onsets = length offsets) as Hout.
  { rewrite (drop_short_gaps_kept _ _ _ Hlen) in Hf. cbn [bind] in Hf.
    rewrite drop_short_syllables_kept in Hf by now rewrite !pick_length.
    inversion Hf. now rewrite !pick_length. }
  destruct raw_onsets; [contradiction|]. simpl in *. lia.
Qed.

Lemma segment_song_fewer_than_runs_witness :
  (length (@nil Q) < length [ms 1])%nat /\ (length (@nil Q) < length [ms 2])%nat.
Proof.
  apply (segment_song_fewer_than_runs [0; 6000; 0] (bins 3) 5000 0 (ms 2)
           [ms 1] [ms 2] [] []).
  - vm_compute. reflexivity.
  - discriminate.
  - vm_compute. reflexivity.
Defined.

(** ** segment_song: order of the output *)

Lemma alternate_weaken (lo lo' : nat) (R F : list nat) :
  (lo' <= lo)%nat -> alternate lo R F -> alternate lo' R F.
Proof.
  intros Hle H. destruct H; [constructor|]. constructor; [lia | assumption..].
Qed.

Lemma edges_alternate (bs : list bool) (prev : bool) (k : nat) :
  if prev then
    exists f0 F, falling_from prev k bs = f0 :: F /\ (k <= f0)%nat /\
                 alternate (S f0) (rising_from prev k bs) F
  else alternate k (rising_from prev k bs) (falling_from prev k bs).
Proof.
  revert prev k; induction bs as [|b r IH]; intros prev k.
  - destruct prev; simpl; [exists k, []; repeat split; [lia|] |]; constructor.
  - pose proof (IH b (S k)) as Hb.
    destruct prev, b; cbn [rising_from falling_from andb negb].
    + destruct Hb as (f0 & F & HF & Hle & Halt). exists f0, F.
      repeat split; [assumption | lia | assumption].
    + exists k, (falling_from false (S k) r). repeat split; [lia | assumption].
    + destruct Hb as (f0 & F & HF & Hle & Halt). rewrite HF.
      constructor; [lia | lia | assumption].
    + now apply (alternate_weaken (S k)); [lia|].
Qed.

Lemma alternate_next (lo : nat) (R F : list nat) (i : nat) :
  alternate lo R F -> (S i < length R)%nat ->
  (nth i F 0 < nth (S i) R 0)%nat.
Proof.
  intro H. revert i. induction H as [|lo r f R F Hlo Hrf Halt IH]; intros i Hi.
  - simpl in Hi. lia.
  - destruct i as [|i].
    + cbn [nth]. inversion Halt; subst; [simpl in Hi; lia|].
      cbn [nth]. lia.
    + cbn [nth]. apply IH. simpl in Hi. lia.
Qed.

Lemma crossings_apart (amp time_bins : list Q) (threshold : Q) (O F : list Q) :
  increasing time_bins ->
  threshold_crossings amp time_bins threshold = Ok (O, F) ->
  gaps_exceed 0 O F.
Proof.
  intros Hinc H. apply crossings_edges in H. destruct H as (-> & -> & HR & HF).
  set (bs := map (fun a => Qgtb a threshold) amp) in *.
  destruct (edges_of_song bs) as [Hlen _].
  pose proof (edges_alternate bs false 0) as Halt. cbv beta iota in Halt.
  rewrite Forall_forall in HR.
  intros i Hi. rewrite pick_length in Hi. rewrite !pick_nth by lia.
  assert (nth (nth i (falling_from false 0 bs) 0%nat) time_bins 0
          < nth (nth (S i) (rising_from false 0 bs) 0%nat) time_bins 0) as Hlt.
  { apply Hinc. split; [now apply (alternate_next 0)|].
    apply HR, nth_In. lia. }
  lra.
Qed.

Lemma kept_apart (O F : list Q) (mask : list bool) :
  length O = length F -> (length mask <= length O)%nat ->
  nondecreasing O -> gaps_exceed 0 O F ->
  gaps_exceed 0 (pick O (np.nonzero mask)) (pick F (np.nonzero mask)).
Proof.
  intros Hlen Hfit Hs Hg. apply kept_gaps_exceed; try assumption.
  intros i _ Hi. now apply Hg.
Qed.

Lemma kept_drawn (a : list Q) (mask : list bool) (t : Q) :
  (length mask <= length a)%nat -> In t (pick a (np.nonzero mask)) -> In t a.
Proof.
  intros Hfit Hin. apply pick_In in Hin. destruct Hin as (k & Hk & <-).
  apply nonzero_true in Hk. apply nth_In. lia.
Qed.

(** X5: on strictly increasing time bins the segments segment_song returns
    are in time order and do not overlap, whatever the three thresholds
    are: each offset is earlier than the next onset; and every onset and
    offset returned is one of the time bins. *)
Theorem segment_song_chronological (amp time_bins : list Q)
    (threshold min_syl_dur min_silent_dur : Q) (onsets offsets : list Q) :
  StronglySorted Qlt time_bins ->
  segment_song amp time_bins threshold min_syl_dur min_silent_dur
    = Ok (onsets, offsets) ->
  (forall i, (S i < length onsets)%nat ->
             nth i offsets 0 < nth (S i) onsets 0) /\
  (forall i j, (i < j < length onsets)%nat -> nth i onsets 0 < nth j onsets 0) /\
  (forall t, In t onsets \/ In t offsets -> In t time_bins).
Proof.
  intros Hsorted H. apply increasing_of_sorted in Hsorted.
  unfold segment_song in H. bind_inv H. destruct v as [O F].
  pose proof (crossings_apart _ _ _ _ _ Hsorted E) as Hg.
  pose proof (crossings_invariants _ _ _ _ _ Hsorted E) as (Hlen & Hp & Hs).
  apply crossings_edges in E. destruct E as (HO & HF & HRr & HFr).
  rewrite (drop_short_gaps_kept O F _ Hlen) in H. cbn [bind] in H.
  set (m1 := map (fun d => Qgtb d min_silent_dur)
                 (np.sub_same (tl O) (removelast F))) in *.
  assert (length m1 <= length O)%nat as Hfit1.
  { unfold m1. rewrite length_map, sub_same_length, tl_length
      by (rewrite tl_length, removelast_length; now f_equal). lia. }
  set (O1 := pick O (np.nonzero m1)) in *.
  set (F1 := pick F (np.nonzero m1)) in *.
  assert (length O1 = length F1) as Hlen1 by (unfold O1, F1; now rewrite !pick_length).
  rewrite (drop_short_syllables_kept O1 F1 _ Hlen1) in H.
  set (m2 := map (fun d => Qgtb d min_syl_dur) (np.sub_same F1 O1)) in *.
  assert (length m2 <= length O1)%nat as Hfit2.
  { unfold m2. rewrite length_map, sub_same_length by now symmetry. lia. }
  inversion H; subst onsets offsets; clear H.
  assert (nondecreasing O1) as Hs1
    by (apply (kept_nondecreasing O F); assumption).
  assert (gaps_exceed 0 O1 F1) as Hg1 by now apply kept_apart.
  assert (paired O1 F1) as Hp1 by now apply kept_paired.
  assert (gaps_exceed 0 (pick O1 (np.nonzero m2)) (pick F1 (np.nonzero m2)))
    as Hg2 by now apply kept_apart.
  assert (paired (pick O1 (np.nonzero m2)) (pick F1 (np.nonzero m2)))
    as Hp2 by now apply kept_paired.
  split; [|split].
  - intros i Hi. specialize (Hg2 i Hi). lra.
  - intros i j. revert i. induction j as [|j IHj]; intros i Hij; [lia|].
    assert (nth j (pick O1 (np.nonzero m2)) 0
            < nth (S j) (pick O1 (np.nonzero m2)) 0) as Hstep.
    { specialize (Hg2 j ltac:(lia)). specialize (Hp2 j ltac:(lia)). lra. }
    destruct (Nat.eq_dec i j) as [->|Hne]; [assumption|].
    apply Qlt_trans with (nth j (pick O1 (np.nonzero m2)) 0); [|assumption].
    apply IHj. lia.
  - assert (forall t, In t O -> In t time_bins) as HinO.
    { intros t Ht. rewrite HO in Ht. apply pick_In in Ht.
      destruct Ht as (k & Hk & <-). rewrite Forall_forall in HRr.
      apply nth_In, HRr, Hk. }
    assert (forall t, In t F -> In t time_bins) as HinF.
    { intros t Ht. rewrite HF in Ht. apply pick_In in Ht.
      destruct Ht as (k & Hk & <-). rewrite Forall_forall in HFr.
      apply nth_In, HFr, Hk. }
    intros t [Ht|Ht].
    + apply HinO. apply (kept_drawn O m1 t Hfit1).
      now apply (kept_drawn O1 m2 t Hfit2).
    + apply HinF. apply (kept_drawn F m1 t); [lia|].
      apply (kept_drawn F1 m2 t); [lia | assumption].
Qed.

Lemma segment_song_chronological_witness :
  let onsets := [ms 1; ms 8] in
  let offsets := [ms 4; ms 11] in
  (forall i, (S i < length onsets)%nat ->
             nth i offsets 0 < nth (S i) onsets 0) /\
  (forall i j, (i < j < length onsets)%nat -> nth i onsets 0 < nth j onsets 0) /\
  (forall t, In t onsets \/ In t offsets -> In t (bins 16)).
Proof.
  apply (segment_song_chronological
           [0; 6000; 6000; 6000; 0; 0; 0; 0; 6000; 6000; 6000; 0; 0; 0; 6000; 0]
           (bins 16) 5000 (3 # 2000) (- (1)) ).
  - unfold bins, ms. simpl. sorted_by_computation.
  - vm_compute. reflexivity.
Defined.

(** ** drop_short_syllables: what is kept *)

Lemma take_by_duration (m : Q) (O F preO preF : list Q) :
  length O = length F -> length preO = length preF ->
  let mask := map (fun d => Qgtb d m) (np.sub_same F O) in
  np.take (preO ++ O) (np.nonzero_from (length preO) mask)
    = Ok (map fst (filter (lasts_longer m) (combine O F))) /\
  np.take (preF ++ F) (np.nonzero_from (length preF) mask)
    = Ok (map snd (filter (lasts_longer m) (combine O F))).
Proof.
  revert F preO preF; induction O as [|o O IH]; intros [|f F] preO preF HL HP;
    try discriminate; [now split|].
  cbn zeta.
  destruct (IH F (preO ++ [o]) (preF ++ [f])) as [HO HF].
  { simpl in HL. lia. }
  { rewrite !length_app. simpl. lia. }
  cbn zeta in HO, HF. rewrite <- app_assoc in HO, HF.
  rewrite !length_app, !Nat.add_1_r in HO, HF. cbn [app] in HO, HF.
  cbn [np.sub_same map np.nonzero_from combine filter].
  change (lasts_longer m (o, f)) with (Qgtb (f - o) m).
  destruct (Qgtb (f - o) m).
  - cbn [np.take map fst snd].
    rewrite !nth_error_app2, !Nat.sub_diag by lia. cbn [nth_error].
    rewrite HO, HF. now split.
  - now split.
Qed.

(** X6: on arrays of equal length the duration step cannot fail, and what
    it returns is a selection of whole segments in their order: one test on
    the segment decides for its onset and its offset together, and it
    accepts only segments that last longer than [min_syl_dur]. *)
Theorem drop_short_syllables_selects_segments (onsets offsets : list Q)
    (min_syl_dur : Q) :
  length onsets = length offsets ->
  exists keep : Q * Q -> bool,
    (forall segment, keep segment = true ->
                     snd segment - fst segment > min_syl_dur) /\
    let kept := filter keep (combine onsets offsets) in
    drop_short_syllables onsets offsets min_syl_dur
    = Ok (map fst kept, map snd kept).
Proof.
  intro Hlen. exists (lasts_longer min_syl_dur). split.
  - intros segment Hkeep. now apply Qgtb_true in Hkeep.
  - cbn zeta. unfold drop_short_syllables.
    rewrite (subtract_same_length offsets onsets (eq_sym Hlen)). cbn [bind].
    destruct (take_by_duration min_syl_dur onsets offsets [] [] Hlen eq_refl)
      as [HO HF].
    cbn zeta in HO, HF. cbn [app length] in HO, HF. unfold np.nonzero.
    rewrite HO. cbn [bind]. rewrite HF. reflexivity.
Qed.

Lemma drop_short_syllables_selects_segments_witness :
  exists keep : Q * Q -> bool,
    (forall segment, keep segment = true ->
                     snd segment - fst segment > ms 20) /\
    let kept :=
      filter keep (combine [ms 1; ms 10; ms 40] [ms 5; ms 35; ms 41]) in
    drop_short_syllables [ms 1; ms 10; ms 40] [ms 5; ms 35; ms 41] (ms 20)
    = Ok (map fst kept, map snd kept).
Proof.
  apply (drop_short_syllables_selects_segments [ms 1; ms 10; ms 40]
           [ms 5; ms 35; ms 41] (ms 20)).
  reflexivity.
Defined.

(** ** make_spect: failures and degenerate bands *)

Lemma py_index_Err {A : Type} (a : list A) (i : nat) (e : exn) :
  py_index a i = Err e -> e = IndexError /\ (length a <= i)%nat.
Proof.
  unfold py_index. destruct (nth_error a i) eqn:E; [discriminate|].
  intro H. inversion H. split; [reflexivity | now apply nth_error_None].
Qed.

(** X7: make_spect fails in four ways only: a zero window size
    (ZeroDivisionError from [4/size]); an error of the window or spectrogram
    routine, passed on unchanged; fewer than two cutoffs (IndexError); or a
    grid with fewer rows than frequencies (IndexError).  No error is ever
    raised about the powers themselves. *)
Theorem make_spect_errors (env : environment) (waveform : list Q)
    (sampfreq : Q) (size step : Z) (cutoffs : list Q) (e : exn) :
  make_spect env waveform sampfreq size step cutoffs = Err e ->
  (size = 0%Z /\ e = ZeroDivisionError) \/
  (size <> 0%Z /\ stft env waveform sampfreq size step = Err e) \/
  (exists freqs times grid,
     stft env waveform sampfreq size step = Ok (freqs, times, grid) /\
     e = IndexError /\
     ((length cutoffs < 2)%nat \/ (np.nrows grid < length freqs)%nat)).
Proof.
  intro H. unfold make_spect in H.
  destruct (stft env waveform sampfreq size step) as [[[freqs times] grid]|e0]
    eqn:Hstft.
  - right. right. exists freqs, times, grid. split; [reflexivity|].
    cbn [bind] in H.
    destruct (py_index cutoffs 0) as [lo|e1] eqn:Hlo.
    + cbn [bind] in H. destruct (py_index cutoffs 1) as [hi|e2] eqn:Hhi.
      * cbn [bind] in H.
        destruct (Nat.le_gt_cases (length freqs) (np.nrows grid)) as [Hle|Hgt];
          [|split; [|now right]].
        -- exfalso. unfold py_index in Hlo, Hhi.
           destruct cutoffs as [|c0 [|c1 rest]]; try discriminate.
           cbn [nth_error] in Hlo, Hhi. inversion Hlo; inversion Hhi; subst.
           pose proof (make_spect_Ok env waveform sampfreq size step
                         (lo :: hi :: rest) freqs times grid lo hi rest
                         Hstft eq_refl Hle) as Hok.
           unfold make_spect in Hok. rewrite Hstft in Hok.
           cbn [bind py_index nth_error] in Hok. rewrite H in Hok. discriminate.
        -- unfold np.nonzero, np.take_rows in H.
           pose proof (take_masked (in_band lo hi) freqs freqs [] (le_n _)) as Hf.
           cbn [app length] in Hf. rewrite Hf in H. cbn [bind] in H.
           destruct (np.take (np.rows grid) _) as [rs|e3] eqn:E3 in H;
             [discriminate|].
           cbn [bind] in H. inversion H; subst. now apply take_Err in E3.
      * cbn [bind] in H. inversion H; subst.
        apply py_index_Err in Hhi. destruct Hhi as [-> Hlen].
        split; [reflexivity | left; lia].
    + cbn [bind] in H. inversion H; subst.
      apply py_index_Err in Hlo. destruct Hlo as [-> Hlen].
      split; [reflexivity | left; lia].
  - cbn [bind] in H. inversion H; subst.
    unfold stft in Hstft. destruct (Z.eqb_spec size 0) as [->|Hne].
    + left. cbn [bind] in Hstft. inversion Hstft. now split.
    + right. left. now split.
Qed.

Lemma make_spect_errors_witness :
  ((8 = 0)%Z /\ IndexError = ZeroDivisionError) \/
  ((8 <> 0)%Z /\
   stft (silent_recording 16 32000) (repeat 0 16) 32000 8 4 = Err IndexError) \/
  (exists freqs times grid,
     stft (silent_recording 16 32000) (repeat 0 16) 32000 8 4
       = Ok (freqs, times, grid) /\
     IndexError = IndexError /\
     ((length [1000] < 2)%nat \/ (np.nrows grid < length freqs)%nat)).
Proof.
  apply (make_spect_errors (silent_recording 16 32000) (repeat 0 16) 32000 8 4
           [1000] IndexError).
  vm_compute. reflexivity.
Defined.

(** X8: cutoffs given in the wrong order, or equal, are not rejected:
    make_spect returns a spectrogram with no rows and no frequency bins,
    which keeps the column count and the time bins of the transform. *)
Theorem make_spect_empty_band (env : environment) (waveform : list Q)
    (sampfreq : Q) (size step : Z) (cutoffs : list Q)
    (freqs times : list Q) (grid : np.array2 Q) (lo hi : Q) (rest : list Q) :
  stft env waveform sampfreq size step = Ok (freqs, times, grid) ->
  cutoffs = lo :: hi :: rest ->
  (length freqs <= np.nrows grid)%nat ->
  hi <= lo ->
  make_spect env waveform sampfreq size step cutoffs
  = Ok (mk_song_spect (np.mk_array2 [] (np.ncols grid)) [] times sampfreq).
Proof.
  intros Hstft Hcut Hrows Hband.
  rewrite (make_spect_Ok _ _ _ _ _ _ _ _ _ _ _ _ Hstft Hcut Hrows).
  assert (retained lo hi freqs grid = []) as ->; [|reflexivity].
  unfold retained.
  induction (combine freqs (np.rows grid)) as [|[f r] l IH]; [reflexivity|].
  cbn [filter fst]. destruct (in_band lo hi f) eqn:Hin; [|exact IH].
  apply in_band_true in Hin. destruct Hin as [H1 H2]. lra.
Qed.

Lemma make_spect_empty_band_witness :
  make_spect (silent_recording 16 32000) (repeat 0 16) 32000 8 4 [8000; 1000]
  = Ok (mk_song_spect (np.mk_array2 [] 3) []
          [1 # 8000; 1 # 4000; 3 # 8000] 32000).
Proof.
  apply (make_spect_empty_band (silent_recording 16 32000) (repeat 0 16)
           32000 8 4 [8000; 1000] [0; 4000; 8000; 12000; 16000]
           [1 # 8000; 1 # 4000; 3 # 8000]
           (np.mk_array2 (repeat [0; 0; 0] 5) 3) 8000 1000 []).
  - vm_compute. reflexivity.
  - reflexivity.
  - unfold np.nrows. simpl. lia.
  - discriminate.
Defined.

Lemma log10_positive (x : Q) : 0 < x -> np.log10 x = np.Log10 x.
Proof. intro Hx. unfold np.log10. now apply Qltb_true in Hx as ->. Qed.

Lemma retained_sub (lo hi : Q) (freqs : list Q) (grid : np.array2 Q)
    (fr : Q * list Q) :
  In fr (retained lo hi freqs grid) -> In (snd fr) (np.rows grid).
Proof.
  unfold retained. rewrite filter_In. intros [Hin _]. destruct fr as [f r].
  now apply in_combine_r in Hin.
Qed.

(** X9: the returned spectrogram is rectangular and shares the time axis:
    when scipy's grid has one entry per time bin in every row, so has every
    row make_spect returns, and the time bins and the sampling frequency
    are passed through unchanged. *)
Theorem make_spect_rectangular (env : environment) (waveform : list Q)
    (sampfreq : Q) (size step : Z) (cutoffs : list Q)
    (freqs times : list Q) (grid : np.array2 Q) (obj : song_spect) :
  stft env waveform sampfreq size step = Ok (freqs, times, grid) ->
  rectangular grid ->
  np.ncols grid = length times ->
  make_spect env waveform sampfreq size step cutoffs = Ok obj ->
  rectangular (spect obj) /\
  Forall (fun r => length r = length (timeBins obj)) (np.rows (spect obj)) /\
  timeBins obj = times /\ sampFreq obj = sampfreq.
Proof.
  intros Hstft Hrect Hcols H. unfold make_spect in H. rewrite Hstft in H.
  cbn [bind] in H. bind_inv H. bind_inv H. bind_inv H. bind_inv H.
  inversion H; subst; clear H. cbn [spect timeBins sampFreq].
  unfold np.take_rows in E2. bind_inv E2. inversion E2; subst; clear E2.
  apply (take_Ok _ []) in E3. destruct E3 as [-> Hin].
  assert (rectangular
            (np.flipud (np.map2 np.log10
               (np.mk_array2
                  (map (fun i => nth i (np.rows grid) [])
                       (np.nonzero (map (in_band v v0) freqs)))
                  (np.ncols grid))))) as Hout.
  { unfold rectangular, np.flipud, np.map2. cbn [np.rows np.ncols].
    apply Forall_rev, Forall_map, Forall_map.
    rewrite Forall_forall in Hin |- *. intros i Hi. rewrite length_map.
    unfold rectangular in Hrect. rewrite Forall_forall in Hrect.
    apply Hrect, nth_In, Hin, Hi. }
  split; [exact Hout|]. split; [|now split].
  unfold rectangular in Hout. cbn [np.flipud np.map2 np.ncols] in Hout.
  now rewrite <- Hcols.
Qed.

Lemma make_spect_rectangular_witness :
  exists obj,
    make_spect (silent_recording 16 32000) (repeat 0 16) 32000 8 4
               [1000; 13000] = Ok obj /\
    rectangular (spect obj) /\
    Forall (fun r => length r = length (timeBins obj)) (np.rows (spect obj)) /\
    timeBins obj = [1 # 8000; 1 # 4000; 3 # 8000] /\ sampFreq obj = 32000.
Proof.
  eexists. split; [vm_compute; reflexivity|].
  apply (make_spect_rectangular (silent_recording 16 32000) (repeat 0 16)
           32000 8 4 [1000; 13000] [0; 4000; 8000; 12000; 16000]
           [1 # 8000; 1 # 4000; 3 # 8000]
           (np.mk_array2 (repeat [0; 0; 0] 5) 3)).
  - vm_compute. reflexivity.
  - repeat constructor.
  - reflexivity.
  - vm_compute. reflexivity.
Defined.

(** X10: when every power in the band is strictly positive, every entry of
    the returned spectrogram is the logarithm of a positive power: no
    [-inf] and no [nan] appears. *)
Theorem make_spect_finite_on_positive_power (env : environment)
    (waveform : list Q) (sampfreq : Q) (size step : Z) (cutoffs : list Q)
    (freqs times : list Q) (grid : np.array2 Q) (lo hi : Q) (rest : list Q) :
  stft env waveform sampfreq size step = Ok (freqs, times, grid) ->
  cutoffs = lo :: hi :: rest ->
  (length freqs <= np.nrows grid)%nat ->
  Forall (fun fr => Forall (fun x => 0 < x) (snd fr)) (retained lo hi freqs grid) ->
  exists obj,
    make_spect env waveform sampfreq size step cutoffs = Ok obj /\
    Forall (Forall (fun v => exists x, 0 < x /\ v = np.Log10 x))
           (np.rows (spect obj)).
Proof.
  intros Hstft Hcut Hrows Hpos.
  eexists. split; [exact (make_spect_Ok _ _ _ _ _ _ _ _ _ _ _ _ Hstft Hcut Hrows)|].
  cbn [spect np.rows]. apply Forall_rev, Forall_map, Forall_map.
  eapply Forall_impl; [|exact Hpos]. intros fr Hfr. cbv beta in *.
  apply Forall_map. eapply Forall_impl; [|exact Hfr].
  intros x Hx. exists x. split; [assumption | now apply log10_positive].
Qed.

Lemma make_spect_finite_on_positive_power_witness :
  let loud :=
    mk_environment (slepian (silent_recording 16 32000))
      (fun _ _ _ _ _ =>
         Ok ([0; 4000; 8000], [1 # 8000; 1 # 4000],
             np.mk_array2 [[0; 0]; [100; 1000]; [10; 1]] 2))
      (load_cbin (silent_recording 16 32000))
      (load_notmat (silent_recording 16 32000)) in
  exists obj,
    make_spect loud (repeat 0 16) 32000 8 4 [1000; 9000] = Ok obj /\
    Forall (Forall (fun v => exists x, 0 < x /\ v = np.Log10 x))
           (np.rows (spect obj)).
Proof.
  intro loud.
  apply (make_spect_finite_on_positive_power loud (repeat 0 16) 32000 8 4
           [1000; 9000] [0; 4000; 8000] [1 # 8000; 1 # 4000]
           (np.mk_array2 [[0; 0]; [100; 1000]; [10; 1]] 2) 1000 9000 []).
  - reflexivity.
  - reflexivity.
  - unfold np.nrows. simpl. lia.
  - vm_compute. repeat constructor.
Defined.

(** ** compute_amp *)

Section ColumnSums.

Context {A : Type} `{Numeric A}.

Lemma add_rows_length (acc row : list A) :
  length row = length acc -> length (add_rows acc row) = length acc.
Proof.
  revert row; induction acc as [|x acc IH]; intros [|y row] Hlen;
    try discriminate; [reflexivity|].
  simpl. f_equal. apply IH. simpl in Hlen. lia.
Qed.

Lemma add_rows_nth (acc row : list A) (j : nat) :
  length row = length acc -> (j < length acc)%nat ->
  nth j (add_rows acc row) num_zero
  = num_add (nth j acc num_zero) (nth j row num_zero).
Proof.
  revert row j; induction acc as [|x acc IH]; intros [|y row] j Hlen Hj;
    try discriminate; simpl in Hj; [lia|].
  destruct j; [reflexivity|]. simpl. apply IH; simpl in Hlen; lia.
Qed.

Lemma fold_rows (rows : list (list A)) (acc : list A) :
  Forall (fun r => length r = length acc) rows ->
  length (fold_left add_rows rows acc) = length acc /\
  forall j, (j < length acc)%nat ->
    nth j (fold_left add_rows rows acc) num_zero
    = fold_left num_add (map (fun r => nth j r num_zero) rows)
                (nth j acc num_zero).
Proof.
  revert acc; induction rows as [|r rows IH]; intros acc Hall.
  - split; [reflexivity | intros; reflexivity].
  - inversion Hall as [|r' rows' Hr Hrest]; subst.
    pose proof (add_rows_length acc r Hr) as Hlen.
    destruct (IH (add_rows acc r)) as [IHlen IHnth].
    { eapply Forall_impl; [|exact Hrest]. intros r' Hr'. cbv beta in *. lia. }
    cbn [fold_left map]. split; [lia|].
    intros j Hj. rewrite IHnth by lia. now rewrite add_rows_nth.
Qed.

End ColumnSums.

(** X11: for a rectangular array compute_amp returns one amplitude per
    column, the sum of that column taken from the first row down; an array
    without rows gives zeros. *)
Theorem compute_amp_column_sums {A : Type} `{Numeric A} (spect : np.array2 A) :
  rectangular spect ->
  length (compute_amp spect) = np.ncols spect /\
  (forall j, (j < np.ncols spect)%nat ->
     nth j (compute_amp spect) num_zero = column_sum spect j) /\
  (np.rows spect = [] -> compute_amp spect = repeat num_zero (np.ncols spect)).
Proof.
  intro Hrect. unfold compute_amp, sum_axis0, column_sum.
  destruct (fold_rows (np.rows spect) (repeat num_zero (np.ncols spect)))
    as [Hlen Hnth].
  { unfold rectangular in Hrect. now rewrite repeat_length. }
  rewrite repeat_length in Hlen, Hnth. split; [exact Hlen|]. split.
  - intros j Hj. rewrite (Hnth j Hj). now rewrite nth_repeat.
  - now intros ->.
Qed.

Lemma compute_amp_column_sums_witness :
  let spect := np.mk_array2 [[1; 2; 3]; [10; 20; 30]] 3 in
  length (compute_amp spect) = 3%nat /\
  (forall j, (j < 3)%nat -> nth j (compute_amp spect) 0 = column_sum spect j) /\
  (np.rows spect = [] -> compute_amp spect = repeat 0 3).
Proof.
  intro spect.
  refine (@compute_amp_column_sums Q Numeric_Q spect _).
  repeat constructor.
Defined.

(** X12: the amplitude of the spectrogram make_spect returns has one entry
    per time bin, as segment_song requires of its two arguments. *)
Theorem compute_amp_of_make_spect (env : environment) (waveform : list Q)
    (sampfreq : Q) (size step : Z) (cutoffs : list Q)
    (freqs times : list Q) (grid : np.array2 Q) (obj : song_spect) :
  stft env waveform sampfreq size step = Ok (freqs, times, grid) ->
  rectangular grid ->
  np.ncols grid = length times ->
  make_spect env waveform sampfreq size step cutoffs = Ok obj ->
  length (compute_amp (spect obj)) = length (timeBins obj).
Proof.
  intros Hstft Hrect Hcols H.
  destruct (make_spect_rectangular _ _ _ _ _ _ _ _ _ _ Hstft Hrect Hcols H)
    as (Hout & Hall & Htimes & _).
  destruct (compute_amp_column_sums (spect obj) Hout) as [Hlen _].
  rewrite Hlen. unfold make_spect in H. rewrite Hstft in H. cbn [bind] in H.
  bind_inv H. bind_inv H. bind_inv H. bind_inv H. inversion H; subst.
  cbn [spect timeBins]. unfold np.take_rows in E2. bind_inv E2.
  inversion E2; subst. exact Hcols.
Qed.

Lemma compute_amp_of_make_spect_witness :
  exists obj,
    make_spect (silent_recording 16 32000) (repeat 0 16) 32000 8 4
               [1000; 13000] = Ok obj /\
    length (compute_amp (spect obj)) = length (timeBins obj).
Proof.
  eexists. split; [vm_compute; reflexivity|].
  apply (compute_amp_of_make_spect (silent_recording 16 32000) (repeat 0 16)
           32000 8 4 [1000; 13000] [0; 4000; 8000; 12000; 16000]
           [1 # 8000; 1 # 4000; 3 # 8000]
           (np.mk_array2 (repeat [0; 0; 0] 5) 3)).
  - vm_compute. reflexivity.
  - repeat constructor.
  - reflexivity.
  - vm_compute. reflexivity.
Defined.

(** ** extract_syls: the width of the window *)

Lemma emitted_columns (spect : np.array2 np.log_value)
    (onset_bin offset_bin : nat) (syl_spect_width : Z) :
  (onset_bin <= offset_bin <= np.ncols spect)%nat ->
  let on := Z.of_nat onset_bin in
  let off := Z.of_nat offset_bin in
  let columns := Z.of_nat (np.ncols spect) in
  let width_diff := (syl_spect_width - (off - on))%Z in
  let centred := centre_widths width_diff in
  np.ncols (syl_spect_of spect onset_bin offset_bin syl_spect_width)
  = np.slice_len (np.ncols spect)
      (on - fst (snd (clamp_widths width_diff on off columns centred)))
      (off + snd (snd (clamp_widths width_diff on off columns centred))).
Proof.
  intros Hle on off columns width_diff centred. unfold syl_spect_of.
  fold on off columns.
  assert (width_diff_of syl_spect_width (np.ncols (np.slice_cols spect on off))
          = width_diff) as ->.
  { unfold width_diff_of, width_diff. cbn [np.slice_cols np.ncols].
    rewrite slice_len_inside by (unfold on, off; lia). unfold on, off. lia. }
  fold centred.
  destruct (clamp_widths width_diff on off columns centred) as [c [l r]].
  reflexivity.
Qed.

(** X13: when the spectrogram has at least [syl_spect_width] columns, the
    window emitted for a segment has exactly [syl_spect_width] columns in
    every case: centred, shifted to start at column 0 by the left clamp, or
    shifted to end at the last column by the right clamp. *)
Theorem syl_spect_width_when_wide_enough (spect : np.array2 np.log_value)
    (onset_bin offset_bin : nat) (syl_spect_width : Z) :
  (onset_bin <= offset_bin <= np.ncols spect)%nat ->
  (0 <= syl_spect_width <= Z.of_nat (np.ncols spect))%Z ->
  Z.of_nat (np.ncols (syl_spect_of spect onset_bin offset_bin syl_spect_width))
  = syl_spect_width.
Proof.
  intros Hle HW. rewrite emitted_columns by assumption. cbv zeta.
  set (on := Z.of_nat onset_bin). set (off := Z.of_nat offset_bin).
  set (columns := Z.of_nat (np.ncols spect)).
  set (wd := (syl_spect_width - (off - on))%Z).
  unfold centre_widths. set (l0 := py_round (inject_Z wd / 2)).
  unfold clamp_widths.
  assert (0 <= on <= off)%Z by (unfold on, off; lia).
  assert (off <= columns)%Z by (unfold off, columns; lia).
  destruct (Z.gtb_spec l0 on) as [Hl|Hl]; cbn [fst snd].
  - rewrite slice_len_inside by (fold columns; lia). lia.
  - destruct (Z.gtb_spec (off + (wd - l0)) columns) as [Hr|Hr]; cbn [fst snd].
    + rewrite slice_len_inside by (fold columns; lia). lia.
    + rewrite slice_len_inside by (fold columns; lia). lia.
Qed.

Lemma syl_spect_width_when_wide_enough_witness :
  let spect := np.mk_array2 (repeat (repeat np.NegInf 30) 3) 30 in
  Z.of_nat (np.ncols (syl_spect_of spect 2 6 20)) = 20%Z /\
  Z.of_nat (np.ncols (syl_spect_of spect 25 29 20)) = 20%Z.
Proof.
  intro spect. split.
  - apply (syl_spect_width_when_wide_enough spect 2 6 20); simpl; lia.
  - apply (syl_spect_width_when_wide_enough spect 25 29 20); simpl; lia.
Defined.

(** X14: when the spectrogram has fewer than [syl_spect_width] columns one
    of the clamps always runs.  After the left clamp the whole spectrogram
    is emitted.  After the right clamp the start index [columns -
    syl_spect_width] is negative and counts from the end, so only the last
    [min(columns, syl_spect_width - columns)] columns are emitted. *)
Theorem syl_spect_width_when_too_narrow (spect : np.array2 np.log_value)
    (onset_bin offset_bin : nat) (syl_spect_width : Z) :
  (onset_bin <= offset_bin <= np.ncols spect)%nat ->
  (Z.of_nat (np.ncols spect) < syl_spect_width)%Z ->
  let on := Z.of_nat onset_bin in
  let off := Z.of_nat offset_bin in
  let columns := Z.of_nat (np.ncols spect) in
  let width_diff := (syl_spect_width - (off - on))%Z in
  let emitted := syl_spect_of spect onset_bin offset_bin syl_spect_width in
  match fst (clamp_widths width_diff on off columns (centre_widths width_diff))
  with
  | NoClamp => False
  | LeftClamp => Z.of_nat (np.ncols emitted) = columns
  | RightClamp =>
      Z.of_nat (np.ncols emitted) = Z.min columns (syl_spect_width - columns)
  end.
Proof.
  intros Hle HW on off columns width_diff emitted. unfold emitted.
  rewrite emitted_columns by assumption. cbv zeta.
  fold on off columns width_diff.
  unfold centre_widths. set (l0 := py_round (inject_Z width_diff / 2)).
  unfold clamp_widths.
  assert (0 <= on <= off)%Z by (unfold on, off; lia).
  assert (off <= columns)%Z by (unfold off, columns; lia).
  destruct (Z.gtb_spec l0 on) as [Hl|Hl]; cbn [fst snd].
  - unfold np.slice_len, np.slice_bound. fold columns.
    destruct (Z.ltb_spec (on - on) 0), (Z.ltb_spec (off + (width_diff - on)) 0);
      unfold width_diff in *; lia.
  - destruct (Z.gtb_spec (off + (width_diff - l0)) columns) as [Hr|Hr];
      cbn [fst snd].
    + unfold np.slice_len, np.slice_bound. fold columns.
      destruct (Z.ltb_spec (on - (width_diff - (columns - off))) 0),
               (Z.ltb_spec (off + (columns - off)) 0);
        unfold width_diff in *; lia.
    + unfold width_diff in *. lia.
Qed.

Lemma syl_spect_width_when_too_narrow_witness :
  let spect := np.mk_array2 (repeat (repeat np.NegInf 10) 3) 10 in
  Z.of_nat (np.ncols (syl_spect_of spect 5 8 13)) = Z.min 10 (13 - 10).
Proof.
  intro spect.
  apply (syl_spect_width_when_too_narrow spect 5 8 13); simpl; lia.
Defined.

(** ** extract_syls: labels *)

Lemma extract_loop_ext (spect : np.array2 np.log_value)
    (onb offb : list nat) (v v' : py_labels) (W : Z)
    (labels : list ascii) (ind : nat) :
  is_all v = is_all v' ->
  (forall c, py_contains v c = py_contains v' c) ->
  extract_loop spect onb offb v W ind labels
  = extract_loop spect onb offb v' W ind labels.
Proof.
  intros Hall Hin. revert ind; induction labels as [|label rest IH]; intro ind;
    [reflexivity|].
  cbn [extract_loop]. now rewrite Hall, Hin, (IH (S ind)).
Qed.

(** X16: only the set of characters in [labels_to_use] matters: two
    arguments other than 'all', strings or lists, that contain the same
    characters give the same result, whatever their order and repetitions. *)
Theorem extract_syls_label_set (env : environment) (cbin : string)
    (params : spect_params) (v v' : py_labels) (syl_spect_width : Z) :
  is_all v = false -> is_all v' = false ->
  (forall c, py_contains v c = py_contains v' c) ->
  extract_syls env cbin params v syl_spect_width
  = extract_syls env cbin params v' syl_spect_width.
Proof.
  intros Hv Hv' Hin.
  destruct (prepare_labels_Ok v) as (p & Hp & Hpa & Hpc).
  destruct (prepare_labels_Ok v') as (p' & Hp' & Hpa' & Hpc').
  unfold extract_syls. rewrite Hp, Hp'. cbn [bind]. unfold extract_prepared.
  destruct (load_cbin env cbin) as [[dat fs]|e]; [|reflexivity]. cbn [bind].
  destruct (negb (Qeq_bool fs (samp_freq params))); [reflexivity|].
  destruct (make_spect env dat fs (window_size params) (window_step params)
              (freq_cutoffs params)) as [obj|e]; [|reflexivity].
  cbn [bind]. destruct (load_notmat env cbin) as [nm|e]; [|reflexivity].
  cbn [bind].
  destruct (mapM (nearest_bin (timeBins obj))
              (map (fun t => t / 1000) (nm_onsets nm))) as [onb|e];
    [|reflexivity].
  cbn [bind].
  destruct (mapM (nearest_bin (timeBins obj))
              (map (fun t => t / 1000) (nm_offsets nm))) as [offb|e];
    [|reflexivity].
  cbn [bind]. apply extract_loop_ext; [congruence|].
  intro c. now rewrite Hpc, Hpc', Hin.
Qed.

Lemma extract_syls_label_set_witness :
  extract_syls (silent_recording 408 32000) "bird.cbin" demo_params
               (PyStr "ab") 20
  = extract_syls (silent_recording 408 32000) "bird.cbin" demo_params
                 (PyList ["b"; "b"; "a"]%char) 20.
Proof.
  apply (extract_syls_label_set (silent_recording 408 32000) "bird.cbin"
           demo_params (PyStr "ab") (PyList ["b"; "b"; "a"]%char) 20).
  - reflexivity.
  - reflexivity.
  - intro c. cbn [py_contains list_ascii_of_string ascii_mem existsb].
    destruct (Ascii.eqb c "a"), (Ascii.eqb c "b"); reflexivity.
Defined.

Lemma extract_loop_labels (spect : np.array2 np.log_value)
    (onb offb : list nat) (v : py_labels) (W : Z)
    (labels : list ascii) (ind : nat)
    (spects : list (np.array2 np.log_value)) (labs : list (option ascii)) :
  extract_loop spect onb offb v W ind labels = Ok (spects, labs) ->
  labs = selected_labels v labels /\ length spects = length labs.
Proof.
  revert ind spects labs; induction labels as [|label rest IH];
    intros ind spects labs H.
  - inversion H; subst. unfold selected_labels. destruct (is_all v); now split.
  - cbn [extract_loop] in H. unfold selected_labels in *.
    destruct (is_all v) eqn:Hall.
    + bind_inv H. bind_inv H. bind_inv H. destruct v2 as [ss ls].
      inversion H; subst. destruct (IH _ _ _ E1) as [-> Hlen].
      split; [reflexivity | simpl; now f_equal].
    + cbn [filter]. destruct (py_contains v label); cbn [negb] in H.
      * bind_inv H. bind_inv H. bind_inv H. destruct v2 as [ss ls].
        inversion H; subst. destruct (IH _ _ _ E1) as [-> Hlen].
        split; [reflexivity | simpl; now f_equal].
      * now apply (IH _ _ _ H).
Qed.

Lemma chars_length (s : string) :
  length (list_ascii_of_string s) = String.length s.
Proof. induction s as [|c s IH]; [reflexivity|]. simpl. now f_equal. Qed.

(** X17: whenever extract_syls returns, it returns as many labels as
    spectrograms and at most one per labelled segment; with 'all' every
    label is [None], otherwise every label is a character of
    [labels_to_use]: a segment with another label is never returned. *)
Theorem extract_syls_returns_selected (env : environment) (cbin : string)
    (params : spect_params) (labels_to_use : py_labels) (syl_spect_width : Z)
    (spects : list (np.array2 np.log_value)) (labs : list (option ascii)) :
  extract_syls env cbin params labels_to_use syl_spect_width
    = Ok (spects, labs) ->
  length spects = length labs /\
  (exists nm, load_notmat env cbin = Ok nm /\
              (length labs <= String.length (nm_labels nm))%nat) /\
  Forall (fun l => match l with
                   | None => is_all labels_to_use = true
                   | Some c => is_all labels_to_use = false /\
                               py_contains labels_to_use c = true
                   end) labs.
Proof.
  intro H. destruct (prepare_labels_Ok labels_to_use) as (p & Hp & Hpa & Hpc).
  unfold extract_syls in H. rewrite Hp in H. cbn [bind] in H.
  unfold extract_prepared in H. bind_inv H. destruct v as [dat fs].
  destruct (negb (Qeq_bool fs (samp_freq params))); [discriminate|].
  bind_inv H. destruct v as [dat' fs']. bind_inv H. bind_inv H.
  bind_inv H. bind_inv H.
  apply extract_loop_labels in H. destruct H as [-> Hlen].
  split; [assumption|]. unfold selected_labels. rewrite Hpa. split.
  - exists v0. split; [assumption|].
    rewrite <- (chars_length (nm_labels v0)).
    destruct (is_all labels_to_use); rewrite length_map; [lia|].
    apply filter_length_le.
  - destruct (is_all labels_to_use).
    + apply Forall_map, Forall_forall. reflexivity.
    + apply Forall_map, Forall_forall. intros c Hc.
      apply filter_In in Hc. destruct Hc as [_ Hc]. rewrite Hpc in Hc.
      now split.
Qed.

Lemma extract_syls_returns_selected_witness :
  exists spects : list (np.array2 np.log_value),
    length spects = length [Some "a"%char; Some "b"%char] /\
    (exists nm, load_notmat (silent_recording 408 32000) "bird.cbin" = Ok nm /\
                (length [Some "a"%char; Some "b"%char]
                 <= String.length (nm_labels nm))%nat) /\
    Forall (fun l => match l with
                     | None => is_all (PyStr "ab") = true
                     | Some c => is_all (PyStr "ab") = false /\
                                 py_contains (PyStr "ab") c = true
                     end) [Some "a"%char; Some "b"%char].
Proof.
  destruct (extract_syls (silent_recording 408 32000) "bird.cbin" demo_params
              (PyStr "ab") 20) as [[spects labs]|e] eqn:E;
    [|vm_compute in E; discriminate].
  assert (labs = [Some "a"%char; Some "b"%char]) as ->
    by (vm_compute in E; now inversion E).
  exists spects.
  exact (extract_syls_returns_selected (silent_recording 408 32000) "bird.cbin"
           demo_params (PyStr "ab") 20 spects _ E).
Defined.

(** X18: the time bins of every segment in the label file are looked up
    before any label is tested, so a spectrogram without time bins and a
    label file with at least one onset make extract_syls fail with the
    ValueError of [np.argmin], even when no label is selected. *)
Theorem extract_syls_empty_time_axis (env : environment) (cbin : string)
    (params : spect_params) (labels_to_use : py_labels) (syl_spect_width : Z)
    (dat : list Q) (fs : Q) (obj : song_spect) (nm : notmat) :
  load_cbin env cbin = Ok (dat, fs) ->
  fs == samp_freq params ->
  make_spect env dat fs (window_size params) (window_step params)
             (freq_cutoffs params) = Ok obj ->
  timeBins obj = [] ->
  load_notmat env cbin = Ok nm ->
  nm_onsets nm <> [] ->
  extract_syls env cbin params labels_to_use syl_spect_width
  = Err (ValueError "attempt to get argmin of an empty sequence").
Proof.
  intros Hcbin Hfs Hspect Hbins Hnm Hon.
  destruct (prepare_labels_Ok labels_to_use) as (v & Hv & _).
  unfold extract_syls. rewrite Hv. cbn [bind]. unfold extract_prepared.
  rewrite Hcbin. cbn [bind]. apply Qeq_bool_iff in Hfs. rewrite Hfs.
  cbn [negb]. rewrite Hspect. cbn [bind]. rewrite Hnm. cbn [bind].
  rewrite Hbins. destruct (nm_onsets nm) as [|t ts]; [contradiction|].
  reflexivity.
Qed.

Lemma extract_syls_empty_time_axis_witness :
  let env :=
    mk_environment (slepian (silent_recording 16 32000))
      (fun _ _ _ _ _ =>
         Ok ([0; 4000; 8000], [], np.mk_array2 [[]; []; []] 0))
      (load_cbin (silent_recording 16 32000))
      (load_notmat (silent_recording 16 32000)) in
  extract_syls env "bird.cbin" demo_params (PyStr "q") 20
  = Err (ValueError "attempt to get argmin of an empty sequence").
Proof.
  intro env.
  apply (extract_syls_empty_time_axis env "bird.cbin" demo_params (PyStr "q") 20
           (repeat 0 16) 32000
           (mk_song_spect (np.mk_array2 [[]; []] 0) [8000; 4000] [] 32000)
           (mk_notmat "axb" [1; 5; 9] [2; 6; 10])).
  - reflexivity.
  - reflexivity.
  - vm_compute. reflexivity.
  - reflexivity.
  - reflexivity.
  - discriminate.
Defined.
